(** * p2p/simulations/journal.go: the event journal and the mock network

    A shallow embedding of [Journal] (a cursor over a buffer of events fed
    by a subscription) and of [MockNetwork] (the driver that posts random
    node and connection events), with the properties the specification
    states about them.

    Go's [int] is modelled by [Z].  Every integer the journal computes on a
    well-formed state lies between 0 and [len(events)], and [len] itself
    returns an [int], so no operation of the journal wraps around.  An
    index or a slice bound out of range is a panic.  The mutex is not
    modelled in the sequential part: each method holds it for its whole
    body, so each method is one atomic step; the goroutine of [Write] and
    the point where [Close] can cut into it are modelled in [Feed], the
    polling of [WaitEntries] in [Waiting].

    Further down: [mockJournalTest] of the same file, [contains] of
    cmd/devp2p/test/framework.go, and [request] of the RPC backend of the
    contract bindings. *)

From Equations Require Import Equations.
From stdpp Require Import base list strings.
From Stdlib Require Import ZArith Lia.
From Stdlib Require Import Strings.Byte.

Open Scope Z_scope.

(** ** Go run-time behaviour shared by both parts *)

(** A computation that either returns or panics. *)
Inductive result (A : Type) : Type :=
| Ok (a : A)
| Panic (msg : string).
Arguments Ok {A} a.
Arguments Panic {A} msg.

Definition rbind {A B} (r : result A) (k : A → result B) : result B :=
  match r with
  | Ok a => k a
  | Panic m => Panic m
  end.

(** [len(s)] of a slice. *)
Definition len {A} (l : list A) : Z := Z.of_nat (length l).

(** [s[i]]: panics ([None]) unless [0 <= i < len(s)]. *)
Definition index {A} (l : list A) (i : Z) : option A :=
  if i <? 0 then None else l !! Z.to_nat i.

(** [s[i:]]: panics ([None]) unless [0 <= i <= len(s)]. *)
Definition slice_from {A} (l : list A) (i : Z) : option (list A) :=
  if (0 <=? i) && (i <=? len l) then Some (drop (Z.to_nat i) l) else None.

(** [s[0:i]], for [0 <= i <= len(s)]. *)
Definition slice_to {A} (l : list A) (i : Z) : option (list A) :=
  if (0 <=? i) && (i <=? len l) then Some (take (Z.to_nat i) l) else None.

(** ** Events *)

(** discover.NodeID is an array of bytes. *)
Definition NodeID := list Byte.byte.

(** Modelled from the spec: SimNode, a node identity used as event payload. *)
Record SimNode := mkSimNode { ID : NodeID }.

(** Modelled from the spec: SimConn, an ordered caller/callee identity pair. *)
Record SimConn := mkSimConn { Caller : NodeID; Callee : NodeID }.

(** What an entry is about: a node or a connection. *)
Inductive Object :=
| ObjNode (sn : SimNode)
| ObjConn (sc : SimConn).

(** Modelled from the spec: Entry, the payload MockNetwork posts; [Type] and
    [Action] are the strings the source writes ("Node"/"Conn", "On"/"Off"). *)
Record Entry := mkEntry { Type_ : string; Action : string; Object_ : Object }.

(** Modelled from the spec: event.Event, a timestamped payload. *)
Record Event := mkEvent { Time : Z; Data : Entry }.

Definition error := string.

(** ** Journal *)

Module Journal.

Record t := mk { counter : Z; cursor : Z; events : list Event }.

(** [self := &Journal{}]: every field has its zero value. *)
Definition NewJournal : t := mk 0 0 [].

Definition append (evs : list Event) (self : t) : t :=
  mk (counter self) (cursor self) (events self ++ evs).

Definition NewEntries (self : t) : Z :=
  len (events self) - cursor self.

(** [reset] clamps its local copy of [n] and never reads it again. *)
Definition reset (n : Z) (self : t) : result t :=
  let n := if n >? counter self then counter self else n in
  match slice_from (events self) (cursor self) with
  | None => Panic "slice bounds out of range"
  | Some evs => Ok (mk (counter self) 0 evs)
  end.

Definition Reset (n : Z) (self : t) : result t := reset n self.

Definition Counter (self : t) : Z := counter self.

Definition Cursor (self : t) : Z := cursor self.

(** A predicate handed to [Read] is a Go closure: it may carry state of its
    own, threaded here as [St]. *)
Definition predicate (St : Type) : Type := Event → St → bool * St.

(** The loop of [Read]:
    [for self.cursor < len(self.events) && f(self.events[self.cursor])
       { read++; self.cursor++ }]. *)
Equations? read_loop {St} (f : predicate St) (s : St) (self : t) (read : Z)
  : result (St * t * Z) by wf (Z.to_nat (len (events self) - cursor self)) lt :=
  read_loop f s self read with Z_lt_dec (cursor self) (len (events self)) => {
    | right _ := Ok (s, self, read)
    | left _ with index (events self) (cursor self) => {
      | None := Panic "index out of range"
      | Some e with f e s => {
        | (true, s') :=
            read_loop f s' (mk (counter self) (cursor self + 1) (events self))
                      (read + 1)
        | (false, s') := Ok (s', self, read) } } }.
Proof. simpl. lia. Qed.

Definition Read {St} (f : predicate St) (s : St) (self : t)
  : result (St * t * (Z * option error)) :=
  rbind (read_loop f s self 0) (λ '(s', self', read),
  rbind (reset (cursor self') self') (λ self'',
  Ok (s', self'', (read, None)))).

(** The methods a caller (or the background loop, for [append]) can run
    on a journal; [WaitEntries] only polls [NewEntries]. *)
Inductive op : Type :=
| OpAppend (evs : list Event)
| OpNewEntries
| OpRead {St : Type} (f : predicate St) (s : St)
| OpReset (n : Z)
| OpCounter
| OpCursor.

(** The journal an operation leaves behind. *)
Definition exec (o : op) (self : t) : result t :=
  match o with
  | OpAppend evs => Ok (append evs self)
  | OpRead f s => rbind (Read f s self) (λ '(_, self', _), Ok self')
  | OpReset n => Reset n self
  | OpNewEntries | OpCounter | OpCursor => Ok self
  end.

Fixpoint run (ops : list op) (self : t) : result t :=
  match ops with
  | [] => Ok self
  | o :: ops' => rbind (exec o self) (run ops')
  end.

(** Ghost: how many events a sequence of operations appends. *)
Fixpoint appended (ops : list op) : Z :=
  match ops with
  | [] => 0
  | OpAppend evs :: ops' => len evs + appended ops'
  | _ :: ops' => appended ops'
  end.

(** The data-model invariant. *)
Definition wf (self : t) : Prop := 0 ≤ cursor self ≤ len (events self).

(** The entries at and after the cursor. *)
Definition unread (self : t) : list Event :=
  drop (Z.to_nat (cursor self)) (events self).

(** What the specification says [Read] does to a backlog [l]: call the
    predicate on each event in order, stop at the first [false] or at the
    end; the result is the number of events accepted and the state the
    predicate is left in. *)
Fixpoint scan {St} (f : predicate St) (s : St) (l : list Event) : nat * St :=
  match l with
  | [] => (0%nat, s)
  | e :: l' =>
      let '(b, s') := f e s in
      if b then let '(n, s'') := scan f s' l' in (S n, s'') else (0%nat, s')
  end.

(** The answers the predicate would give along a backlog. *)
Fixpoint answers {St} (f : predicate St) (s : St) (l : list Event) : list bool :=
  match l with
  | [] => []
  | e :: l' => let '(b, s') := f e s in b :: answers f s' l'
  end.

(** A predicate that also records every event it is called on. *)
Definition logging {St} (f : predicate St) : predicate (St * list Event) :=
  λ e '(s, log), let '(b, s') := f e s in (b, (s', log ++ [e])).

(** The events one [Read] hands to the predicate, in call order. *)
Definition delivered {St} (f : predicate St) (s : St) (self : t) : list Event :=
  match Read (logging f) (s, []) self with
  | Ok (_, log, _, _) => log
  | Panic _ => []
  end.

(** Which operations are appends, which are trims. *)
Definition is_append (o : op) : bool :=
  match o with OpAppend _ => true | _ => false end.

Definition is_read_or_reset (o : op) : bool :=
  match o with OpRead _ _ | OpReset _ => true | _ => false end.

(** A stateless predicate. *)
Definition pure_pred (p : Event → bool) : predicate unit := λ e u, (p e, u).

(** Ghost: the events a sequence of operations appends, in order. *)
Fixpoint appended_events (ops : list op) : list Event :=
  match ops with
  | [] => []
  | OpAppend evs :: ops' => evs ++ appended_events ops'
  | _ :: ops' => appended_events ops'
  end.

(** A predicate that also keeps the events it accepted. *)
Definition recording {St} (f : predicate St) : predicate (St * list Event) :=
  λ e '(s, acc), let '(b, s') := f e s in (b, (s', if b then acc ++ [e] else acc)).

(** Runs the operations like [run] and collects, in [acc], the events the
    predicates of the Reads accepted. *)
Fixpoint run_recording (ops : list op) (acc : list Event) (self : t)
  : result (list Event * t) :=
  match ops with
  | [] => Ok (acc, self)
  | OpRead f s :: ops' =>
      rbind (Read (recording f) (s, acc) self) (λ '(_, acc', self', _),
      run_recording ops' acc' self')
  | o :: ops' => rbind (exec o self) (run_recording ops' acc)
  end.

End Journal.

(** ** MockNetwork *)

Module Driver.

Record Delta := mkDelta { On : Z; Off : Z }.

(** Modelled from the spec: the event source as the driver uses it,
    [Post(event) → error]; a stopped source rejects the post, a running one
    records it. *)
Record TypeMux := mkMux { stopped : bool; posted : list Entry }.

Definition Post (e : Entry) (m : TypeMux) : option error * TypeMux :=
  if stopped m then (Some "event mux closed", m)
  else (None, mkMux (stopped m) (posted m ++ [e])).

(** math/rand's global source: the stream of its raw draws and how many
    were taken. *)
Record Rand := mkRand { draws : nat → Z; pos : nat }.

(** What MockNetwork works on: the random source, the eventer, and its
    local variables [onNodes], [offNodes] and [onConns]. *)
Record state := mkState {
  rng : Rand;
  eventer : TypeMux;
  onNodes : list SimNode;
  offNodes : list NodeID;
  onConns : list SimConn }.

(** A step of the driver returns, panics, or is still running when the
    fuel is spent (only the retry loop of the connections can do that). *)
Inductive outcome (A : Type) : Type :=
| Done (a : A) (w : state)
| Panicked (msg : string) (w : state)
| Spinning (w : state).
Arguments Done {A} a w.
Arguments Panicked {A} msg w.
Arguments Spinning {A} w.

Definition M (A : Type) : Type := state → outcome A.

Definition ret {A} (a : A) : M A := λ w, Done a w.

Definition bind {A B} (c : M A) (k : A → M B) : M B :=
  λ w, match c w with
       | Done a w' => k a w'
       | Panicked m w' => Panicked m w'
       | Spinning w' => Spinning w'
       end.

Notation "'let*' x ':=' c 'in' k" := (bind c (λ x, k))
  (at level 10, x name, c at level 100, k at level 200, only parsing).
Notation "c ';;' k" := (bind c (λ _, k))
  (at level 100, k at level 200, right associativity, only parsing).

Definition panic {A} (msg : string) : M A := λ w, Panicked msg w.

Definition gets {A} (proj : state → A) : M A := λ w, Done (proj w) w.

Definition modify (upd : state → state) : M unit := λ w, Done tt (upd w).

(** A slice operation that panics out of range. *)
Definition must {A} (msg : string) (o : option A) : M A :=
  match o with
  | Some a => ret a
  | None => panic msg
  end.

(** The state an outcome stops in. *)
Definition world {A} (o : outcome A) : state :=
  match o with
  | Done _ w | Panicked _ w | Spinning w => w
  end.

(** [rand.Intn(n)]: panics unless [n > 0], else the next draw reduced to
    [[0, n)]. *)
Definition Intn (n : Z) : M Z :=
  λ w, if n <=? 0 then Panicked "invalid argument to Intn" w
       else Done (draws (rng w) (pos (rng w)) `mod` n)
                 (mkState (mkRand (draws (rng w)) (S (pos (rng w))))
                          (eventer w) (onNodes w) (offNodes w) (onConns w)).

(** [err := eventer.Post(e); if err != nil { panic(err.Error()) }]. *)
Definition post (e : Entry) : M unit :=
  λ w, match Post e (eventer w) with
       | (Some err, m) =>
           Panicked err (mkState (rng w) m (onNodes w) (offNodes w) (onConns w))
       | (None, m) =>
           Done tt (mkState (rng w) m (onNodes w) (offNodes w) (onConns w))
       end.

(** [bytes.Compare]: -1, 0 or 1 by lexicographic order. *)
Fixpoint bytes_Compare (a b : list Byte.byte) : Z :=
  match a, b with
  | [], [] => 0
  | [], _ :: _ => -1
  | _ :: _, [] => 1
  | x :: a', y :: b' =>
      match N.compare (Byte.to_N x) (Byte.to_N y) with
      | Lt => -1
      | Gt => 1
      | Eq => bytes_Compare a' b'
      end
  end.

(** [append(s[0:c], s[c+1:]...)]. *)
Definition remove_at {A} (l : list A) (c : Z) : option (list A) :=
  match slice_to l c, slice_from l (c + 1) with
  | Some a, Some b => Some (a ++ b)
  | _, _ => None
  end.

Definition oneOutOf (n : Z) : M Z :=
  let* t := Intn n in
  if t =? 0 then ret 1 else ret 0.

Definition deltas (i : Z) : M (list Delta) :=
  if i =? 0 then ret [mkDelta 10 0; mkDelta 20 0]
  else
    let* a := oneOutOf 10 in
    let* b := oneOutOf 10 in
    let* c := oneOutOf 2 in
    let* d := oneOutOf 2 in
    ret [mkDelta a b; mkDelta c d].

(** [for i := start; cond; i++ { body }].  The body returns the value it
    leaves in [i] (a [continue] after [i--] returns [i - 1]). *)
Fixpoint for_loop (fuel : nat) (cond : Z → state → bool) (body : Z → M Z)
    (i : Z) : M unit :=
  λ w, if cond i w then
         match fuel with
         | O => Spinning w
         | S fuel' =>
             match body i w with
             | Done i' w' => for_loop fuel' cond body (i' + 1) w'
             | Panicked m w' => Panicked m w'
             | Spinning w' => Spinning w'
             end
         end
       else Done tt w.

(** Lines 208-221: turn nodes on. *)
Definition nodes_on_cond (d : Delta) (i : Z) (w : state) : bool :=
  (len (offNodes w) >? 0) && (i <? On d).

Definition nodes_on_body (i : Z) : M Z :=
  let* off := gets offNodes in
  let* c := Intn (len off) in
  let* id := must "index out of range" (index off c) in
  let sn := mkSimNode id in
  post (mkEntry "Node" "On" (ObjNode sn));;
  let* rest := must "slice bounds out of range" (remove_at off c) in
  modify (λ w, mkState (rng w) (eventer w) (onNodes w ++ [sn]) rest (onConns w));;
  ret i.

(** Lines 222-235: turn nodes off. *)
Definition nodes_off_cond (d : Delta) (i : Z) (w : state) : bool :=
  (len (onNodes w) >? 0) && (i <? Off d).

Definition nodes_off_body (i : Z) : M Z :=
  let* on := gets onNodes in
  let* c := Intn (len on) in
  let* sn := must "index out of range" (index on c) in
  post (mkEntry "Node" "Off" (ObjNode sn));;
  let* rest := must "slice bounds out of range" (remove_at on c) in
  modify (λ w, mkState (rng w) (eventer w) rest (offNodes w ++ [ID sn]) (onConns w));;
  ret i.

(** Lines 236-256: connect two nodes that are on; a pair that is not in
    strictly increasing order is drawn again. *)
Definition conns_on_cond (d : Delta) (i : Z) (w : state) : bool :=
  (len (onNodes w) >? 1) && (i <? On d).

Definition conns_on_body (i : Z) : M Z :=
  let* on := gets onNodes in
  let* a := Intn (len on) in
  let* x := must "index out of range" (index on a) in
  let caller := ID x in
  let* b := Intn (len on) in
  let* y := must "index out of range" (index on b) in
  let callee := ID y in
  if bytes_Compare caller callee >=? 0 then ret (i - 1)
  else
    let sc := mkSimConn caller callee in
    post (mkEntry "Conn" "On" (ObjConn sc));;
    modify (λ w, mkState (rng w) (eventer w) (onNodes w) (offNodes w)
                         (onConns w ++ [sc]));;
    ret i.

(** Lines 257-268: drop connections. *)
Definition conns_off_cond (d : Delta) (i : Z) (w : state) : bool :=
  (len (onConns w) >? 0) && (i <? Off d).

Definition conns_off_body (i : Z) : M Z :=
  let* conns := gets onConns in
  let* c := Intn (len conns) in
  let* sc := must "index out of range" (index conns c) in
  post (mkEntry "Conn" "Off" (ObjConn sc));;
  let* rest := must "slice bounds out of range" (remove_at conns c) in
  modify (λ w, mkState (rng w) (eventer w) (onNodes w) (offNodes w) rest);;
  ret i.

(** The two node loops run at most [On] and [Off] times. *)
Definition node_phase (d : Delta) : M unit :=
  for_loop (Z.to_nat (On d)) (nodes_on_cond d) nodes_on_body 0;;
  for_loop (Z.to_nat (Off d)) (nodes_off_cond d) nodes_off_body 0.

Definition conn_phase (fuel : nat) (d : Delta) : M unit :=
  for_loop fuel (conns_on_cond d) conns_on_body 0;;
  for_loop (Z.to_nat (Off d)) (conns_off_cond d) conns_off_body 0.

(** The body of [for _ = range ticker], at tick [n]. *)
Definition tick (fuel : nat) (n : Z) : M unit :=
  let* ds := deltas n in
  let* d0 := must "index out of range" (index ds 0) in
  let* d1 := must "index out of range" (index ds 1) in
  node_phase d0;;
  conn_phase fuel d1.

(** The state before the first tick; [ids] is what [RandomNodeIDs(100)]
    returned. *)
Definition start (ids : list NodeID) (r : Rand) (m : TypeMux) : state :=
  mkState r m [] ids [].

Fixpoint ticks (fuel : nat) (k : nat) (n : Z) : M unit :=
  match k with
  | O => ret tt
  | S k' => tick fuel n;; ticks fuel k' (n + 1)
  end.

(** MockNetwork over a ticker that delivers [k] ticks. *)
Definition MockNetwork (fuel : nat) (ids : list NodeID) (r : Rand) (m : TypeMux)
    (k : nat) : outcome unit :=
  ticks fuel k 0 (start ids r m).

(** *** Notions the properties of the driver are stated with *)

#[global] Instance byte_eq_decision : EqDecision Byte.byte := Byte.byte_eq_dec.

Definition is_done {A} (o : outcome A) : bool :=
  match o with Done _ _ => true | _ => false end.

(** A Node/On event. *)
Definition is_node_on (e : Entry) : bool :=
  match Object_ e with
  | ObjNode _ => bool_decide (Type_ e = "Node") && bool_decide (Action e = "On")
  | ObjConn _ => false
  end.

(** A Conn/On event whose caller sorts strictly before its callee. *)
Definition is_ordered_conn_on (e : Entry) : bool :=
  match Object_ e with
  | ObjConn sc =>
      bool_decide (Type_ e = "Conn") && bool_decide (Action e = "On")
      && (bytes_Compare (Caller sc) (Callee sc) <? 0)
  | ObjNode _ => false
  end.

(** Whether the two draws at positions [p] and [p + 1] pick, among the
    nodes [on], a caller that sorts strictly before the callee. *)
Definition ordered_draw (on : list SimNode) (d : nat → Z) (p : nat) : bool :=
  match index on (d p `mod` len on), index on (d (S p) `mod` len on) with
  | Some x, Some y => bytes_Compare (ID x) (ID y) <? 0
  | _, _ => false
  end.

(** How many of the [k] pairs of draws from position [p] on are ordered. *)
Fixpoint ordered_among (on : list SimNode) (d : nat → Z) (p k : nat) : nat :=
  match k with
  | O => 0
  | S k' => (if ordered_draw on d p then 1 else 0) + ordered_among on d (S (S p)) k'
  end.

(** The on-set and the off-pool, as identities. *)
Definition pools : Type := list NodeID * list NodeID.

Definition pools_of (w : state) : pools := (ID <$> onNodes w, offNodes w).

(** What a posted event does to the pools when it is legal: a Node/On
    needs its node in the off-pool and moves it to the on-set, a Node/Off
    needs it in the on-set and moves it back; events about connections
    leave the pools alone. *)
Definition apply_entry (e : Entry) (s : pools) : option pools :=
  match Object_ e with
  | ObjConn _ => Some s
  | ObjNode sn =>
      if bool_decide (Type_ e = "Node" ∧ Action e = "On") then
        if bool_decide (ID sn ∈ s.2)
        then Some (s.1 ++ [ID sn], filter (λ x, x ≠ ID sn) s.2)
        else None
      else if bool_decide (Type_ e = "Node" ∧ Action e = "Off") then
        if bool_decide (ID sn ∈ s.1)
        then Some (filter (λ x, x ≠ ID sn) s.1, s.2 ++ [ID sn])
        else None
      else None
  end.

(** The pools stay a rearrangement of the generated identities. *)
Definition partition_of (ids : list NodeID) (s : pools) : Prop :=
  s.1 ++ s.2 ≡ₚ ids.

Fixpoint replay (es : list Entry) (s : pools) : option pools :=
  match es with
  | [] => Some s
  | e :: es' =>
      match apply_entry e s with
      | Some s' => replay es' s'
      | None => None
      end
  end.

(** The driver's invariant: its pools partition [ids], and the events
    posted since the start are a legal history that leads from "all off"
    to the current pools. *)
Definition partitioned (ids : list NodeID) (base : list Entry) (w : state) : Prop :=
  partition_of ids (pools_of w)
  ∧ ∃ new, posted (eventer w) = base ++ new
           ∧ replay new ([], ids) = Some (pools_of w).

Definition is_panicked {A} (o : outcome A) : bool :=
  match o with Panicked _ _ => true | _ => false end.

(** A Node/Off event. *)
Definition is_node_off (e : Entry) : bool :=
  match Object_ e with
  | ObjNode _ => bool_decide (Type_ e = "Node") && bool_decide (Action e = "Off")
  | ObjConn _ => false
  end.

(** A Conn/Off event. *)
Definition is_conn_off (e : Entry) : bool :=
  match Object_ e with
  | ObjConn _ => bool_decide (Type_ e = "Conn") && bool_decide (Action e = "Off")
  | ObjNode _ => false
  end.

(** A connection whose caller sorts strictly before its callee. *)
Definition ordered_conn (sc : SimConn) : bool :=
  bytes_Compare (Caller sc) (Callee sc) <? 0.

(** An event that is not about a connection, or is about an ordered one. *)
Definition names_ordered_conn (e : Entry) : bool :=
  match Object_ e with
  | ObjConn sc => ordered_conn sc
  | ObjNode _ => true
  end.

(** The events [o] has posted beyond those of [w]: all of kind [Q], and at
    most [k] of them. *)
Definition posts_within {A} (Q : Entry → Prop) (k : nat) (w : state)
    (o : outcome A) : Prop :=
  ∃ evs, posted (eventer (world o)) = posted (eventer w) ++ evs
         ∧ Forall Q evs ∧ (length evs ≤ k)%nat.

#[global] Instance SimConn_eq_decision : EqDecision SimConn.
Proof. solve_decision. Defined.

(** Drops the first occurrence of [x]. *)
Fixpoint remove_first (x : SimConn) (l : list SimConn) : list SimConn :=
  match l with
  | [] => []
  | y :: l' => if decide (x = y) then l' else y :: remove_first x l'
  end.

(** What a posted event does to the connections that are on, when it is
    legal: a Conn/On adds its connection, a Conn/Off needs its connection
    among those on and takes one copy of it away; events about nodes leave
    the connections alone. *)
Definition apply_conn_entry (e : Entry) (l : list SimConn) : option (list SimConn) :=
  match Object_ e with
  | ObjNode _ => Some l
  | ObjConn sc =>
      if bool_decide (Type_ e = "Conn" ∧ Action e = "On") then Some (l ++ [sc])
      else if bool_decide (Type_ e = "Conn" ∧ Action e = "Off") then
        if bool_decide (sc ∈ l) then Some (remove_first sc l) else None
      else None
  end.

Fixpoint replay_conns (es : list Entry) (l : list SimConn) : option (list SimConn) :=
  match es with
  | [] => Some l
  | e :: es' =>
      match apply_conn_entry e l with
      | Some l' => replay_conns es' l'
      | None => None
      end
  end.

End Driver.

(** ** The background loop: NewJournal, Write and Close *)

Module Feed.

(** Where the goroutine started by [NewJournal] stands in [Write]. *)
Inductive writer :=
| Receiving               (* at [ev, ok := <-self.sub.Chan()] *)
| Appending (ev : Event)  (* received [ev] with [ok], before [self.append(ev)] *)
| Returned.               (* saw [!ok] and returned *)

(** A journal with its subscription and its goroutine.

    Modelled from the spec: the subscription, "a receive channel of Events
    (closes on unsubscribe)".  [sending] holds the matching posts that wait
    for the loop to receive them, in post order; unsubscribing closes the
    channel and the waiting posts are given up; a post made after that
    finds no subscriber.  [history] is ghost state: every event [append]
    was called with, in order. *)
Record sys := mkSys {
  journal : Journal.t;
  closed : bool;
  sending : list Event;
  loop : writer;
  history : list Event }.

(** The journal [NewJournal] returns: subscribed, with the loop started. *)
Definition started : sys := mkSys Journal.NewJournal false [] Receiving [].

(** What can happen next: the event source posts a matching event, the
    goroutine runs up to its next statement, some goroutine calls [Close],
    or a caller runs one of the journal's methods. *)
Inductive action :=
| Post (ev : Event)
| WriterStep
| Close
| Call (o : Journal.op).

(** One turn of [Write]'s loop body, split where another goroutine can
    run in between: the channel receive, then the append under the lock. *)
Definition writer_step (s : sys) : sys :=
  match loop s with
  | Receiving =>
      match sending s with
      | ev :: rest => mkSys (journal s) (closed s) rest (Appending ev) (history s)
      | [] =>
          if closed s
          then mkSys (journal s) (closed s) [] Returned (history s)
          else s
      end
  | Appending ev =>
      mkSys (Journal.append [ev] (journal s)) (closed s) (sending s) Receiving
            (history s ++ [ev])
  | Returned => s
  end.

Definition step (a : action) (s : sys) : sys :=
  match a with
  | Post ev =>
      if closed s then s
      else mkSys (journal s) (closed s) (sending s ++ [ev]) (loop s) (history s)
  | WriterStep => writer_step s
  | Close => mkSys (journal s) true [] (loop s) (history s)
  | Call o =>
      if Journal.is_append o then s
      else match Journal.exec o (journal s) with
           | Ok j => mkSys j (closed s) (sending s) (loop s) (history s)
           | Panic _ => s
           end
  end.

Definition run_actions (acts : list action) (s : sys) : sys :=
  foldl (flip step) s acts.

(** How many more turns the loop takes once the channel is closed and
    nothing waits on it. *)
Definition turns_left (l : writer) : nat :=
  match l with
  | Appending _ => 2
  | Receiving => 1
  | Returned => 0
  end.

Fixpoint writer_steps (acts : list action) : nat :=
  match acts with
  | [] => 0
  | WriterStep :: acts' => S (writer_steps acts')
  | _ :: acts' => writer_steps acts'
  end.

(** The event the loop holds between its receive and its append. *)
Definition in_flight (l : writer) : list Event :=
  match l with
  | Appending ev => [ev]
  | _ => []
  end.

(** Ghost: the events a schedule posts, in order. *)
Fixpoint posts (acts : list action) : list Event :=
  match acts with
  | [] => []
  | Post ev :: acts' => ev :: posts acts'
  | _ :: acts' => posts acts'
  end.

(** Whether a schedule calls [Close]. *)
Fixpoint closes (acts : list action) : bool :=
  match acts with
  | [] => false
  | Close :: _ => true
  | _ :: acts' => closes acts'
  end.

(** A post or a step of the loop: neither a [Close] nor a call of a
    method. *)
Definition is_post_or_turn (a : action) : bool :=
  match a with
  | Post _ | WriterStep => true
  | _ => false
  end.

End Feed.

(** ** WaitEntries *)

Module Waiting.

(** A journal with its loop, and a goroutine that may be inside
    [WaitEntries(n)]: [Some n] while it is, [None] once it has returned. *)
Record sys := mkSys { feed : Feed.sys; waiting : option Z }.

(** The call of [WaitEntries(n)]. *)
Definition WaitEntries (n : Z) (s : Feed.sys) : sys := mkSys s (Some n).

(** Either the rest of the system moves, or the waiting goroutine
    evaluates its loop condition [self.NewEntries() < n] once. *)
Inductive action :=
| Other (a : Feed.action)
| Poll.

Definition step (a : action) (s : sys) : sys :=
  match a with
  | Other a' => mkSys (Feed.step a' (feed s)) (waiting s)
  | Poll =>
      match waiting s with
      | Some n =>
          if Journal.NewEntries (Feed.journal (feed s)) <? n then s
          else mkSys (feed s) None
      | None => s
      end
  end.

Definition run_actions (acts : list action) (s : sys) : sys :=
  foldl (flip step) s acts.

(** What a schedule does to the rest of the system. *)
Fixpoint feed_actions (acts : list action) : list Feed.action :=
  match acts with
  | [] => []
  | Other a :: acts' => a :: feed_actions acts'
  | Poll :: acts' => feed_actions acts'
  end.

End Waiting.

(** ** mockJournalTest *)

Module MockJournal.

(** [ids[i]], panicking out of range. *)
Definition at_index (ids : list NodeID) (i : Z) : result NodeID :=
  match index ids i with
  | Some id => Ok id
  | None => Panic "index out of range"
  end.

(** The body of the loop at tick [n], with [action] as the previous ticks
    left it: the entries handed to [nw.AppendEntries] and the new
    [action]. *)
Definition tick (ids : list NodeID) (n : Z) (action : string)
  : result (list Entry * string) :=
  if n =? 0 then
    rbind (at_index ids 0) (λ id0,
    rbind (at_index ids 1) (λ id1,
    Ok ([mkEntry "Node" "On" (ObjNode (mkSimNode id0));
         mkEntry "Node" "On" (ObjNode (mkSimNode id1))], action)))
  else
    rbind (at_index ids 0) (λ id0,
    rbind (at_index ids 1) (λ id1,
    let sc := mkSimConn id0 id1 in
    if Z.rem n 3 =? 0 then
      let action := if String.eqb action "On" then "Off" else "On" in
      Ok ([mkEntry "Conn" action (ObjConn sc)], action)
    else Ok ([], action))).

(** [k] ticks from tick [n] on: what each tick appended. *)
Fixpoint ticks (ids : list NodeID) (k : nat) (n : Z) (action : string)
  : result (list (list Entry)) :=
  match k with
  | O => Ok []
  | S k' =>
      rbind (tick ids n action) (λ '(entries, action'),
      rbind (ticks ids k' (n + 1) action') (λ later,
      Ok (entries :: later)))
  end.

(** mockJournalTest over a ticker that delivers [k] ticks; [ids] is what
    [RandomNodeIDs(100)] returned. *)
Definition mockJournalTest (ids : list NodeID) (k : nat) : result (list (list Entry)) :=
  ticks ids k 0 "Off".

(** In closed form: what tick [n] appends for the identities [id0], [id1]
    at the head of [ids]. *)
Definition appended_at (id0 id1 : NodeID) (n : Z) : list Entry :=
  if n =? 0 then
    [mkEntry "Node" "On" (ObjNode (mkSimNode id0));
     mkEntry "Node" "On" (ObjNode (mkSimNode id1))]
  else if n `mod` 3 =? 0 then
    [mkEntry "Conn" (if Z.odd (n / 3) then "On" else "Off")
             (ObjConn (mkSimConn id0 id1))]
  else [].

End MockJournal.

(** ** cmd/devp2p/test/framework.go: contains *)

Module Framework.
Section Contains.

(** v4wire.Node and v4wire.Pubkey are declared outside these sources;
    [contains] only reads a node's [ID] and compares it with [==]. *)
Variables Node Pubkey : Type.
Variable ID : Node → Pubkey.
Context `{EqDecision Pubkey}.

Fixpoint contains (ns : list Node) (key : Pubkey) : bool :=
  match ns with
  | [] => false
  | n :: ns' => if decide (ID n = key) then true else contains ns' key
  end.

End Contains.
End Framework.

(** ** The RPC backend of the contract bindings: request *)

Module Rpc.

(** 2^32: [autoid] is a uint32. *)
Definition uint32_modulus : Z := 2 ^ 32.

Section Backend.

(** The parameters passed through ([interface{}] values). *)
Variable Param : Type.

(** A nil slice of parameters is [None]. *)
Record request := mkRequest {
  JsonRpc : string;
  Id : Z;
  Method : string;
  Params : option (list Param) }.

(** [Error] and [Result] are raw JSON; a nil [Result] is [None]. *)
Record response := mkResponse {
  rJsonRpc : string;
  rId : Z;
  Error : string;
  Result : option string }.

(** rpc.Client is an interface declared outside these sources: [Send]
    takes the request and may fail, [Recv] fills in a response or fails;
    both may change the connection. *)
Variable Client : Type.
Variable Send : request → Client → option error * Client.
Variable Recv : Client → option error * response * Client.

Record rpcBackend := mkBackend { client : Client; autoid : Z }.

Definition NewRPCBackend (c : Client) : rpcBackend := mkBackend c 0.

(** [atomic.AddUint32(&backend.autoid, 1)]: the new value, wrapped. *)
Definition next_id (backend : rpcBackend) : Z :=
  (autoid backend + 1) `mod` uint32_modulus.

(** The request object [request] assembles (with an [int] of 64 bits the
    conversion of the id is exact). *)
Definition assemble (method : string) (params : option (list Param))
    (backend : rpcBackend) : request :=
  let params := match params with None => Some [] | Some _ => params end in
  mkRequest "2.0" (next_id backend) method params.

(** The result and the error returned, and the backend afterwards. *)
Definition request_ (method : string) (params : option (list Param))
    (backend : rpcBackend) : option string * option error * rpcBackend :=
  let req := assemble method params backend in
  match Send req (client backend) with
  | (Some err, c) => (None, Some err, mkBackend c (next_id backend))
  | (None, c) =>
      match Recv c with
      | (Some err, _, c') => (None, Some err, mkBackend c' (next_id backend))
      | (None, res, c') =>
          if 0 <? Z.of_nat (String.length (Error res)) then
            (None, Some ("remote error: " ++ Error res)%string,
             mkBackend c' (next_id backend))
          else (Result res, None, mkBackend c' (next_id backend))
      end
  end.

(** Ghost: the request objects a series of calls hands to [Send]. *)
Fixpoint requests (calls : list (string * option (list Param)))
    (backend : rpcBackend) : list request :=
  match calls with
  | [] => []
  | (method, params) :: calls' =>
      assemble method params backend
      :: requests calls' (request_ method params backend).2
  end.

End Backend.

End Rpc.

(** ** Sample data *)

Module Samples.
Import Journal.

Definition id_of (n : N) : NodeID := [default Byte.x00 (Byte.of_N n)].

Definition node_on (n : N) : Entry :=
  mkEntry "Node" "On" (ObjNode (mkSimNode (id_of n))).

(** The event posted at time [k]. *)
Definition ev (k : Z) : Event := mkEvent k (node_on (Z.to_N k)).

(** Accepts the events posted before time [k]. *)
Definition before (k : Z) : predicate unit := pure_pred (λ e, Time e <? k).

(** A closure with a budget: accepts while fewer than [k] calls were made. *)
Definition budget (k : Z) : predicate Z := λ _ calls, (calls <? k, calls + 1).

(** Two of four entries already read. *)
Definition half_read : t := mk 0 2 [ev 1; ev 2; ev 3; ev 4].

(** One hundred distinct identities. *)
Definition hundred_ids : list NodeID := (λ n, id_of (N.of_nat n)) <$> seq 0 100.

(** A source whose k-th draw is k. *)
Definition counting : Driver.Rand := Driver.mkRand Z.of_nat 0.

(** A source that only ever draws 0. *)
Definition zeros : Driver.Rand := Driver.mkRand (λ _, 0) 0.

Definition running : Driver.TypeMux := Driver.mkMux false [].

(** A client that accepts every request and replies with the responses it
    was given, in order; with none left, receiving fails. *)
Definition canned_send (_ : Rpc.request string) (c : list Rpc.response)
  : option error * list Rpc.response := (None, c).

Definition canned_recv (c : list Rpc.response)
  : option error * Rpc.response * list Rpc.response :=
  match c with
  | res :: c' => (None, res, c')
  | [] => (Some "EOF", Rpc.mkResponse "" 0 "" None, [])
  end.

End Samples.

(** * Properties of the journal *)

Module JournalFacts.
Import Journal.

Lemma len_app {A} (l k : list A) : len (l ++ k) = len l + len k.
Proof. unfold len. rewrite length_app. lia. Qed.

Lemma len_nonneg {A} (l : list A) : 0 ≤ len l.
Proof. unfold len. lia. Qed.

Lemma index_lookup {A} (l : list A) (i : Z) :
  0 ≤ i → index l i = l !! Z.to_nat i.
Proof. intros Hi. unfold index. destruct (Z.ltb_spec i 0); [lia | done]. Qed.

Lemma slice_from_in_range {A} (l : list A) (i : Z) :
  0 ≤ i ≤ len l → slice_from l i = Some (drop (Z.to_nat i) l).
Proof.
  intros [H0 H1]. unfold slice_from.
  destruct (Z.leb_spec 0 i); [| lia]. destruct (Z.leb_spec i (len l)); [done | lia].
Qed.

Lemma reset_wf n self :
  wf self → reset n self = Ok (mk (counter self) 0 (unread self)).
Proof. intros Hwf. unfold reset. by rewrite slice_from_in_range. Qed.

(** The loop of [Read] does what [scan] says, from any cursor position. *)
Lemma read_loop_scan {St} (f : predicate St) (l : list Event) :
  ∀ s c pre read cnt,
    c = len pre →
    read_loop f s (mk cnt c (pre ++ l)) read
    = let '(n, s') := scan f s l in
      Ok (s', mk cnt (c + Z.of_nat n) (pre ++ l), read + Z.of_nat n).
Proof.
  induction l as [| e l IH]; intros s c pre read cnt Hc; subst c.
  - simp read_loop. simpl.
    destruct (Z_lt_dec _ _) as [Hlt | Hge]; simpl.
    + exfalso. rewrite len_app in Hlt. unfold len in Hlt. simpl in Hlt. lia.
    + by rewrite !Z.add_0_r.
  - simp read_loop. simpl.
    destruct (Z_lt_dec _ _) as [Hlt | Hge]; simpl.
    2: { exfalso. rewrite len_app in Hge. unfold len in *. simpl in Hge. lia. }
    rewrite index_lookup by apply len_nonneg.
    replace (Z.to_nat (len pre)) with (length pre) by (unfold len; lia).
    rewrite list_lookup_middle by done. simpl.
    destruct (f e s) as [[|] s'] eqn:Hf; simpl.
    + replace (pre ++ e :: l) with ((pre ++ [e]) ++ l) by by rewrite <- app_assoc.
      rewrite (IH s' (len pre + 1) (pre ++ [e]) (read + 1) cnt).
      2: { rewrite len_app. done. }
      destruct (scan f s' l) as [n s'']. simpl.
      replace (Z.of_nat (S n)) with (1 + Z.of_nat n) by lia.
      by rewrite !Z.add_assoc.
    + by rewrite !Z.add_0_r.
Qed.

Lemma scan_le {St} (f : predicate St) l :
  ∀ s, (fst (scan f s l) ≤ length l)%nat.
Proof.
  induction l as [| e l IH]; intros s; simpl; [lia |].
  destruct (f e s) as [[|] s']; simpl; [| lia].
  specialize (IH s'). destruct (scan f s' l). simpl in *. lia.
Qed.

(** [scan] stops exactly where the answers stop being [true]. *)
Lemma scan_answers {St} (f : predicate St) l :
  ∀ s, let n := fst (scan f s l) in
       take n (answers f s l) = replicate n true
       ∧ answers f s l !! n ≠ Some true.
Proof.
  induction l as [| e l IH]; intros s; simpl; [done |].
  destruct (f e s) as [[|] s']; simpl; [| done].
  specialize (IH s'). destruct (scan f s' l) as [n s'']. simpl in *.
  destruct IH as [IH1 IH2]. by rewrite IH1.
Qed.

(** A prefix of [true] answers followed by a [false] pins the count. *)
Lemma first_false_unique (bs : list bool) (n k : nat) :
  take n bs = replicate n true → bs !! n ≠ Some true →
  take k bs = replicate k true → bs !! k = Some false →
  n = k.
Proof.
  revert n k. induction bs as [| b bs IH]; intros n k Hn1 Hn2 Hk1 Hk2.
  - done.
  - destruct n as [| n], k as [| k]; simpl in *.
    + done.
    + destruct b; [done | discriminate].
    + destruct b; [done | discriminate].
    + f_equal. apply IH; congruence.
Qed.

(** The recording predicate counts like the plain one and records the
    accepted entries plus the one that was refused. *)
Lemma scan_logging {St} (f : predicate St) l :
  ∀ s log,
    scan (logging f) (s, log) l
    = let '(n, s') := scan f s l in (n, (s', log ++ take (S n) l)).
Proof.
  induction l as [| e l IH]; intros s log; simpl.
  - by rewrite app_nil_r.
  - destruct (f e s) as [[|] s']; simpl; [| done].
    rewrite IH. destruct (scan f s' l) as [n s'']. by rewrite <- app_assoc.
Qed.

Lemma wf_split self :
  wf self →
  events self = take (Z.to_nat (cursor self)) (events self) ++ unread self
  ∧ cursor self = len (take (Z.to_nat (cursor self)) (events self)).
Proof.
  intros [H0 H1]. split; [unfold unread; by rewrite take_drop |].
  unfold len in *. rewrite length_take. lia.
Qed.

(** [Read] in closed form. *)
Lemma Read_scan {St} (f : predicate St) s self :
  wf self →
  Read f s self
  = let '(n, s') := scan f s (unread self) in
    Ok (s', mk (counter self) 0 (drop n (unread self)), (Z.of_nat n, None)).
Proof.
  intros Hwf. destruct (wf_split self Hwf) as [Hev Hc].
  destruct self as [cnt c evs]. simpl in *. unfold Read.
  pose proof (scan_le f (unread (mk cnt c evs)) s) as Hle.
  rewrite Hev at 1.
  rewrite (read_loop_scan f _ s c _ 0 cnt Hc).
  unfold unread in *. simpl in *.
  destruct (scan f s (drop (Z.to_nat c) evs)) as [n s']. simpl in *.
  rewrite <- Hev. rewrite length_drop in Hle. destruct Hwf as [H0 H1]. simpl in *.
  unfold reset. simpl. rewrite slice_from_in_range by (unfold len in *; lia).
  simpl. rewrite drop_drop.
  replace (Z.to_nat (c + Z.of_nat n)) with (Z.to_nat c + n)%nat by lia. done.
Qed.

Lemma Read_wf {St} (f : predicate St) s self :
  wf self → ∃ s' self' n, Read f s self = Ok (s', self', (n, None)) ∧ wf self'
    ∧ counter self' = counter self.
Proof.
  intros Hwf. rewrite Read_scan by done.
  destruct (scan f s (unread self)) as [n s'].
  eexists _, _, _. split; [done |]. split; [| done].
  unfold wf. simpl. pose proof (len_nonneg (drop n (unread self))). lia.
Qed.

Lemma exec_wf o self : wf self → ∃ self', exec o self = Ok self' ∧ wf self'.
Proof.
  intros Hwf. destruct o as [evs | | St f s | n | |]; simpl; eauto.
  - eexists. split; [done |]. unfold wf in *. simpl. rewrite len_app.
    pose proof (len_nonneg evs). lia.
  - destruct (Read_wf f s self Hwf) as (s' & self' & n & -> & Hwf' & _). simpl. eauto.
  - unfold Reset. rewrite reset_wf by done. eexists. split; [done |].
    unfold wf. simpl. pose proof (len_nonneg (unread self)). lia.
Qed.

(** The loop moves the cursor only. *)
Lemma read_loop_frame {St} (f : predicate St) s self read :
  ∀ s' j r, read_loop f s self read = Ok (s', j, r) →
            counter j = counter self ∧ events j = events self.
Proof.
  funelim (read_loop f s self read); intros s1 j r Hr.
  - by injection Hr as <- <- <-.
  - discriminate.
  - apply H in Hr. done.
  - by injection Hr as <- <- <-.
Qed.

Lemma exec_counter o self self' :
  exec o self = Ok self' → counter self' = counter self.
Proof.
  destruct o as [evs | | St f s | n | |]; simpl; try (intros [= <-]; done).
  - unfold Read. destruct (read_loop f s self 0) as [[[s' j] r] |] eqn:Hloop; [| done].
    apply read_loop_frame in Hloop as [Hc _].
    simpl. unfold reset. destruct (slice_from _ _); [| done]. simpl. by intros [= <-].
  - unfold Reset, reset. destruct (slice_from _ _); [| done]. by intros [= <-].
Qed.

Lemma run_counter ops : ∀ self self',
  run ops self = Ok self' → counter self' = counter self.
Proof.
  induction ops as [| o ops IH]; intros self self'; simpl.
  - by intros [= <-].
  - destruct (exec o self) as [j |] eqn:Ho; [| done]. simpl. intros Hrun.
    apply IH in Hrun. apply exec_counter in Ho. congruence.
Qed.

(** C1, as the code has it: [Counter()] returns the [counter] field, which
    starts at 0 and which no operation writes.  In every journal reached
    from [NewJournal] it is 0, and every operation, the trims of [Read] and
    [Reset] and [append] included, leaves it as it was (so it never
    decreases, and an append does not increase it). *)
Theorem Counter_never_changes (ops : list op) (o : op) (self self' : t) :
  run ops NewJournal = Ok self →
  exec o self = Ok self' →
  Counter self = 0 ∧ Counter self' = Counter self ∧ Counter self ≤ Counter self'.
Proof.
  intros Hrun Ho. apply run_counter in Hrun. apply exec_counter in Ho.
  unfold Counter. simpl in Hrun. lia.
Qed.

Lemma Counter_never_changes_witness :
  Counter (mk 0 0 [Samples.ev 1; Samples.ev 2]) = 0
  ∧ Counter (mk 0 0 [Samples.ev 2]) = Counter (mk 0 0 [Samples.ev 1; Samples.ev 2])
  ∧ Counter (mk 0 0 [Samples.ev 1; Samples.ev 2]) ≤ Counter (mk 0 0 [Samples.ev 2]).
Proof.
  apply (Counter_never_changes
           [OpAppend [Samples.ev 1]; OpAppend [Samples.ev 2]]
           (OpRead (Samples.before 2) tt)); reflexivity.
Defined.

(** C1 as stated fails: after one event is appended to a new journal, one
    event has been appended in total and [Counter()] is still 0. *)
Lemma Counter_misses_append :
  run [OpAppend [Samples.ev 1]] NewJournal = Ok (append [Samples.ev 1] NewJournal)
  ∧ appended [OpAppend [Samples.ev 1]] = 1
  ∧ Counter (append [Samples.ev 1] NewJournal) = 0
  ∧ Counter (append [Samples.ev 1] NewJournal) ≠ Counter NewJournal + 1.
Proof. repeat split; try reflexivity. unfold Counter; simpl. lia. Qed.

(** C2: [Reset(n)] leaves the journal with the entries before the cursor
    dropped and the cursor renumbered to 0 (on every journal whose cursor
    is within the buffer, otherwise the slice expression panics), and [n]
    has no effect: it is only clamped to [counter] and then dropped, so
    [Reset(n)] and [Reset(m)] do the same on every state. *)
Theorem Reset_trims_to_cursor (n m : Z) (self : t) :
  (wf self → Reset n self = Ok (mk (counter self) 0 (unread self)))
  ∧ Reset n self = Reset m self.
Proof.
  split; [| reflexivity]. intros Hwf. unfold Reset. by apply reset_wf.
Qed.

Lemma Reset_trims_to_cursor_witness :
  Reset 7 Samples.half_read = Ok (mk 0 0 [Samples.ev 3; Samples.ev 4])
  ∧ Reset 7 Samples.half_read = Reset (-1) Samples.half_read.
Proof.
  destruct (Reset_trims_to_cursor 7 (-1) Samples.half_read) as [Htrim Hsame].
  split; [| exact Hsame]. apply Htrim.
  unfold wf. simpl. unfold len. simpl. lia.
Defined.

Lemma NewEntries_unread self : wf self → NewEntries self = len (unread self).
Proof.
  intros [H0 H1]. unfold NewEntries, unread, len in *. rewrite length_drop. lia.
Qed.

(** Every integer [Read] computes on a well-formed journal lies between 0
    and [len(events)]: the count, and the cursor all along the loop. *)
Lemma Read_ints_bounded {St} (f : predicate St) s self :
  wf self →
  0 ≤ Z.of_nat (fst (scan f s (unread self))) ≤ NewEntries self
  ∧ 0 ≤ cursor self + Z.of_nat (fst (scan f s (unread self))) ≤ len (events self).
Proof.
  intros Hwf. pose proof (scan_le f (unread self) s) as Hle.
  rewrite (NewEntries_unread self Hwf). destruct Hwf as [H0 H1].
  unfold unread, len in *. rewrite length_drop in *. lia.
Qed.

Lemma delivered_scan {St} (f : predicate St) s self :
  wf self →
  delivered f s self = take (S (fst (scan f s (unread self)))) (unread self).
Proof.
  intros Hwf. unfold delivered. rewrite Read_scan by done.
  rewrite scan_logging. by destruct (scan f s (unread self)).
Qed.

(** C3: [Read] calls the predicate on the unread events in order from the
    cursor, consumes exactly the longest prefix the predicate accepts (the
    entry that is refused is handed to the predicate but stays in the
    buffer), and returns the length of that prefix; if the first refusal is
    on the k-th unread entry, the result is k-1. *)
Theorem Read_consumes_longest_prefix {St} (f : predicate St) (s : St) (self : t) :
  wf self →
  ∃ (n : nat) (s' : St),
    scan f s (unread self) = (n, s')
    ∧ Read f s self
      = Ok (s', mk (counter self) 0 (drop n (unread self)), (Z.of_nat n, None))
    ∧ take n (answers f s (unread self)) = replicate n true
    ∧ answers f s (unread self) !! n ≠ Some true
    ∧ delivered f s self = take (S n) (unread self)
    ∧ ∀ k : nat,
        take k (answers f s (unread self)) = replicate k true →
        answers f s (unread self) !! k = Some false →
        n = k.
Proof.
  intros Hwf.
  pose proof (Read_scan f s self Hwf) as HR.
  pose proof (scan_answers f (unread self) s) as [Ha1 Ha2].
  pose proof (delivered_scan f s self Hwf) as Hd.
  destruct (scan f s (unread self)) as [n s']. simpl in *.
  exists n, s'. repeat split; try done.
  intros k Hk1 Hk2. by eapply first_false_unique.
Qed.

Lemma Read_consumes_longest_prefix_witness :
  ∃ (n : nat) (s' : Z),
    scan (Samples.budget 1) 0 (unread Samples.half_read) = (n, s')
    ∧ Read (Samples.budget 1) 0 Samples.half_read
      = Ok (s', mk 0 0 (drop n (unread Samples.half_read)), (Z.of_nat n, None))
    ∧ take n (answers (Samples.budget 1) 0 (unread Samples.half_read))
      = replicate n true
    ∧ answers (Samples.budget 1) 0 (unread Samples.half_read) !! n ≠ Some true
    ∧ delivered (Samples.budget 1) 0 Samples.half_read
      = take (S n) (unread Samples.half_read)
    ∧ ∀ k : nat,
        take k (answers (Samples.budget 1) 0 (unread Samples.half_read))
        = replicate k true →
        answers (Samples.budget 1) 0 (unread Samples.half_read) !! k = Some false →
        n = k.
Proof.
  apply (Read_consumes_longest_prefix (Samples.budget 1) 0 Samples.half_read).
  unfold wf. simpl. unfold len. simpl. lia.
Defined.

Example Read_budget_1 :
  Read (Samples.budget 1) 0 Samples.half_read
  = Ok (2, mk 0 0 [Samples.ev 4], (1, None))
  ∧ delivered (Samples.budget 1) 0 Samples.half_read = [Samples.ev 3; Samples.ev 4].
Proof. split; reflexivity. Qed.

Lemma delivered_prefix {St} (f : predicate St) s self :
  wf self → delivered f s self `prefix_of` unread self.
Proof.
  intros Hwf. rewrite delivered_scan by done.
  exists (drop (S (fst (scan f s (unread self)))) (unread self)).
  by rewrite take_drop.
Qed.

(** C4: every [Read], whatever the predicate, trims: on return the buffer
    holds exactly the formerly unread entries that were not consumed and
    the cursor is 0.  What a later [Read] hands to its predicate is taken
    from that buffer and from what was appended since, so no entry consumed
    earlier is delivered again. *)
Theorem Read_trims_consumed {St St'} (f : predicate St) (s : St)
    (g : predicate St') (s2 : St') (evs : list Event) (self : t) :
  wf self →
  ∃ (n : nat) (s' : St) (self' : t),
    Read f s self = Ok (s', self', (Z.of_nat n, None))
    ∧ Cursor self' = 0
    ∧ events self' = drop n (unread self)
    ∧ unread self = take n (unread self) ++ events self'
    ∧ delivered g s2 (append evs self') `prefix_of` drop n (unread self) ++ evs.
Proof.
  intros Hwf. rewrite Read_scan by done.
  destruct (scan f s (unread self)) as [n s'].
  eexists n, s', _. split; [done |]. simpl.
  split; [done |]. split; [done |]. split; [by rewrite take_drop |].
  set (self' := mk (counter self) 0 (drop n (unread self))).
  assert (Hwf' : wf (append evs self')).
  { unfold wf. simpl. pose proof (len_nonneg (drop n (unread self) ++ evs)). lia. }
  apply (delivered_prefix g s2) in Hwf'. done.
Qed.

Lemma Read_trims_consumed_witness :
  ∃ (n : nat) (s' : unit) (self' : t),
    Read (Samples.before 4) tt Samples.half_read = Ok (s', self', (Z.of_nat n, None))
    ∧ Cursor self' = 0
    ∧ events self' = drop n (unread Samples.half_read)
    ∧ unread Samples.half_read = take n (unread Samples.half_read) ++ events self'
    ∧ delivered (Samples.budget 5) 0 (append [Samples.ev 5] self')
      `prefix_of` drop n (unread Samples.half_read) ++ [Samples.ev 5].
Proof.
  apply (Read_trims_consumed (Samples.before 4) tt (Samples.budget 5) 0
           [Samples.ev 5] Samples.half_read).
  unfold wf. simpl. unfold len. simpl. lia.
Defined.

(** How each operation moves the backlog. *)
Lemma exec_backlog o self :
  wf self →
  ∃ self', exec o self = Ok self' ∧
    match o with
    | OpAppend evs => NewEntries self' = NewEntries self + len evs
    | OpRead _ _ => NewEntries self' ≤ NewEntries self
    | _ => NewEntries self' = NewEntries self
    end.
Proof.
  intros Hwf. destruct o as [evs | | St f s | n | |]; simpl; eauto.
  - eexists. split; [done |]. unfold NewEntries. simpl. rewrite len_app. lia.
  - rewrite Read_scan by done. destruct (scan f s (unread self)) as [k s'].
    simpl. eexists. split; [done |]. rewrite (NewEntries_unread self) by done.
    unfold NewEntries, len. simpl. rewrite length_drop. lia.
  - unfold Reset. rewrite reset_wf by done. eexists. split; [done |].
    rewrite (NewEntries_unread self) by done. unfold NewEntries. simpl. lia.
Qed.

(** C5: [NewEntries()] is [len(events) - cursor], the number of unread
    entries; an operation that makes it larger is an append, and one that
    makes it smaller is a [Read] or a [Reset]. *)
Theorem NewEntries_is_backlog (o : op) (self : t) :
  wf self →
  NewEntries self = len (events self) - cursor self
  ∧ NewEntries self = len (unread self)
  ∧ ∃ self', exec o self = Ok self'
      ∧ (NewEntries self < NewEntries self' → is_append o = true)
      ∧ (NewEntries self' < NewEntries self → is_read_or_reset o = true).
Proof.
  intros Hwf. split; [done |]. split; [by apply NewEntries_unread |].
  destruct (exec_backlog o self Hwf) as (self' & Hex & Hb).
  exists self'. split; [done |].
  destruct o as [evs | | St f s | n | |]; simpl in *; split; intros; try done;
    try lia.
  pose proof (len_nonneg evs). lia.
Qed.

Lemma NewEntries_is_backlog_witness :
  NewEntries Samples.half_read
  = len (events Samples.half_read) - cursor Samples.half_read
  ∧ NewEntries Samples.half_read = len (unread Samples.half_read)
  ∧ ∃ self', exec (OpRead (Samples.before 4) tt) Samples.half_read = Ok self'
      ∧ (NewEntries Samples.half_read < NewEntries self'
         → is_append (OpRead (Samples.before 4) tt) = true)
      ∧ (NewEntries self' < NewEntries Samples.half_read
         → is_read_or_reset (OpRead (Samples.before 4) tt) = true).
Proof.
  apply (NewEntries_is_backlog (OpRead (Samples.before 4) tt) Samples.half_read).
  unfold wf. simpl. unfold len. simpl. lia.
Defined.

(** C6: [0 <= cursor <= len(events)] holds in a new journal, and every
    operation, run on a journal where it holds, returns and leaves a
    journal where it holds. *)
Theorem cursor_within_buffer (o : op) (self : t) :
  wf NewJournal
  ∧ (wf self → ∃ self', exec o self = Ok self' ∧ wf self').
Proof.
  split; [| apply exec_wf]. unfold wf, len. simpl. lia.
Qed.

Lemma cursor_within_buffer_witness :
  wf NewJournal
  ∧ ∃ self', exec (OpRead (Samples.budget 1) 0) Samples.half_read = Ok self'
             ∧ wf self'.
Proof.
  destruct (cursor_within_buffer (OpRead (Samples.budget 1) 0) Samples.half_read)
    as [Hnew Hstep].
  split; [exact Hnew |]. apply Hstep.
  unfold wf. simpl. unfold len. simpl. lia.
Defined.

(** C7: [Read] never produces an error: whenever it returns, the error is
    nil, and on every well-formed journal it does return. *)
Theorem Read_error_is_nil {St} (f : predicate St) (s : St) (self : t) :
  (∀ s' self' n err, Read f s self = Ok (s', self', (n, err)) → err = None)
  ∧ (wf self → ∃ s' self' n, Read f s self = Ok (s', self', (n, None))).
Proof.
  split.
  - intros s' self' n err. unfold Read.
    destruct (read_loop f s self 0) as [[[s1 j] r] |]; [| done]. simpl.
    destruct (reset (cursor j) j); [| done]. simpl. by intros [= _ _ _ <-].
  - intros Hwf. destruct (Read_wf f s self Hwf) as (s' & self' & n & H & _). eauto.
Qed.

Lemma Read_error_is_nil_witness :
  ∃ s' self' n, Read (Samples.before 4) tt Samples.half_read = Ok (s', self', (n, None)).
Proof.
  apply (Read_error_is_nil (Samples.before 4) tt Samples.half_read).
  unfold wf. simpl. unfold len. simpl. lia.
Defined.

End JournalFacts.

(** * Properties of the background loop *)

Module FeedFacts.
Import Feed.

Lemma run_actions_cons a acts s :
  run_actions (a :: acts) s = run_actions acts (step a s).
Proof. reflexivity. Qed.

(** Once closed, the channel stays closed and empty. *)
Lemma step_closed a s :
  closed s = true → sending s = [] →
  closed (step a s) = true ∧ sending (step a s) = [].
Proof.
  intros Hc Hs. destruct a as [ev | | | o]; simpl.
  - by rewrite Hc.
  - unfold writer_step. rewrite Hs, Hc. by destruct (loop s).
  - done.
  - destruct (Journal.is_append o); [done |].
    by destruct (Journal.exec o (journal s)).
Qed.

(** After the close, the loop can only finish the turn it is in. *)
Lemma closed_run acts : ∀ s,
  closed s = true → sending s = [] →
  history (run_actions acts s)
  = history s ++ match loop s with
                 | Appending ev => if bool_decide (0 < writer_steps acts)%nat
                                   then [ev] else []
                 | _ => []
                 end
  ∧ turns_left (loop (run_actions acts s))
    = (turns_left (loop s) - writer_steps acts)%nat.
Proof.
  induction acts as [| a acts IH]; intros s Hc Hs.
  - simpl. split; [| lia]. destruct (loop s); by rewrite ?app_nil_r.
  - rewrite run_actions_cons.
    destruct (step_closed a s Hc Hs) as [Hc' Hs'].
    destruct (IH (step a s) Hc' Hs') as [IH1 IH2]. rewrite IH1, IH2. clear IH IH1 IH2.
    destruct a as [ev | | | o]; simpl.
    + by rewrite Hc.
    + unfold writer_step. rewrite Hs, Hc.
      destruct (loop s) as [| ev |] eqn:Hl; simpl; rewrite ?Hl; simpl.
      * rewrite app_nil_r. split; [done | lia].
      * rewrite app_nil_r. split; [done | lia].
      * done.
    + done.
    + destruct (Journal.is_append o); [done |].
      by destruct (Journal.exec o (journal s)).
Qed.

(** C9, as the code has it: once [Close()] has been called, the only entry
    that can still be appended is the one event the loop had already
    received and not yet appended; no event posted afterwards is ever
    appended, and the loop returns within two more of its steps (the
    pending append, then the receive that sees the channel closed). *)
Theorem Close_stops_the_loop (s : sys) (acts : list action) :
  history (run_actions acts (step Close s))
  = history s ++ match loop s with
                 | Appending ev => if bool_decide (0 < writer_steps acts)%nat
                                   then [ev] else []
                 | _ => []
                 end
  ∧ ((2 ≤ writer_steps acts)%nat →
     loop (run_actions acts (step Close s)) = Returned).
Proof.
  destruct (closed_run acts (step Close s) eq_refl eq_refl) as [H1 H2].
  split; [exact H1 |]. intros Hn.
  assert (turns_left (loop (run_actions acts (step Close s))) = 0%nat) as H0.
  { rewrite H2. simpl. destruct (loop s); simpl; lia. }
  by destruct (loop (run_actions acts (step Close s))).
Qed.

Lemma Close_stops_the_loop_witness :
  history (run_actions
             [Post (Samples.ev 2); WriterStep; Post (Samples.ev 3); WriterStep]
             (step Close (run_actions [Post (Samples.ev 1); WriterStep] started)))
  = [Samples.ev 1]
  ∧ loop (run_actions
            [Post (Samples.ev 2); WriterStep; Post (Samples.ev 3); WriterStep]
            (step Close (run_actions [Post (Samples.ev 1); WriterStep] started)))
    = Returned.
Proof.
  destruct (Close_stops_the_loop
              (run_actions [Post (Samples.ev 1); WriterStep] started)
              [Post (Samples.ev 2); WriterStep; Post (Samples.ev 3); WriterStep])
    as [Hhist Hloop].
  split; [exact Hhist |]. apply Hloop. simpl. lia.
Defined.

(** C9 as stated fails: [Close()] can be called between the receive and
    the append of one turn of the loop, and that turn's event is appended
    to the buffer after the close. *)
Lemma append_after_Close :
  let s := step Close (run_actions [Post (Samples.ev 1); WriterStep] started) in
  closed s = true
  ∧ Journal.events (journal s) = []
  ∧ Journal.events (journal (step WriterStep s)) = [Samples.ev 1]
  ∧ history s = []
  ∧ history (step WriterStep s) = [Samples.ev 1].
Proof. repeat split. Qed.

End FeedFacts.

(** * Properties of the driver *)

Module DriverFacts.
Import Driver.
Import JournalFacts.

Lemma index_in_range {A} (l : list A) (c : Z) :
  0 ≤ c < len l → ∃ x, index l c = Some x ∧ l !! Z.to_nat c = Some x.
Proof.
  intros [H0 H1]. rewrite index_lookup by done.
  destruct (l !! Z.to_nat c) as [x |] eqn:Hx; [eauto |].
  apply lookup_ge_None in Hx. unfold len in H1. lia.
Qed.

Lemma remove_at_in_range {A} (l : list A) (c : Z) :
  0 ≤ c < len l → remove_at l c = Some (delete (Z.to_nat c) l).
Proof.
  intros [H0 H1]. unfold remove_at, slice_to, slice_from.
  destruct (Z.leb_spec 0 c); [| lia]. destruct (Z.leb_spec c (len l)); [| lia].
  destruct (Z.leb_spec 0 (c + 1)); [| lia].
  destruct (Z.leb_spec (c + 1) (len l)); [| lia]. simpl.
  rewrite delete_take_drop. do 3 f_equal. lia.
Qed.

Lemma mod_in_range (z n : Z) : 0 < n → 0 ≤ z `mod` n < n.
Proof. intros. apply Z.mod_pos_bound. lia. Qed.

Lemma Intn_run (n : Z) (w : state) :
  0 < n →
  Intn n w = Done (draws (rng w) (pos (rng w)) `mod` n)
                  (mkState (mkRand (draws (rng w)) (S (pos (rng w))))
                           (eventer w) (onNodes w) (offNodes w) (onConns w)).
Proof. intros Hn. unfold Intn. destruct (Z.leb_spec n 0); [lia | done]. Qed.

Lemma post_run (e : Entry) (w : state) :
  post e w
  = if stopped (eventer w)
    then Panicked "event mux closed"
           (mkState (rng w) (eventer w) (onNodes w) (offNodes w) (onConns w))
    else Done tt
           (mkState (rng w) (mkMux false (posted (eventer w) ++ [e]))
                    (onNodes w) (offNodes w) (onConns w)).
Proof. unfold post, Post. by destruct (stopped (eventer w)) eqn:Hs. Qed.

(** One turn of the first loop: the draw picks a node of the off-pool, the
    event is posted, the node moves to the on-set. *)
Lemma nodes_on_body_run (i : Z) (w : state) :
  0 < len (offNodes w) →
  ∃ id, offNodes w !! Z.to_nat (draws (rng w) (pos (rng w)) `mod` len (offNodes w))
        = Some id
    ∧ nodes_on_body i w
      = if stopped (eventer w)
        then Panicked "event mux closed"
               (mkState (mkRand (draws (rng w)) (S (pos (rng w))))
                        (eventer w) (onNodes w) (offNodes w) (onConns w))
        else Done i
               (mkState (mkRand (draws (rng w)) (S (pos (rng w))))
                  (mkMux false (posted (eventer w)
                                ++ [mkEntry "Node" "On" (ObjNode (mkSimNode id))]))
                  (onNodes w ++ [mkSimNode id])
                  (delete (Z.to_nat (draws (rng w) (pos (rng w))
                                     `mod` len (offNodes w))) (offNodes w))
                  (onConns w)).
Proof.
  intros Hlen.
  pose proof (mod_in_range (draws (rng w) (pos (rng w))) _ Hlen) as Hc.
  destruct (index_in_range _ _ Hc) as (id & Hidx & Hlk).
  exists id. split; [done |].
  unfold nodes_on_body, bind, gets. rewrite Intn_run by done. simpl.
  rewrite Hidx. simpl. rewrite post_run. simpl.
  destruct (stopped (eventer w)); [done |].
  rewrite remove_at_in_range by done. done.
Qed.

Lemma nodes_off_body_run (i : Z) (w : state) :
  0 < len (onNodes w) →
  ∃ sn, onNodes w !! Z.to_nat (draws (rng w) (pos (rng w)) `mod` len (onNodes w))
        = Some sn
    ∧ nodes_off_body i w
      = if stopped (eventer w)
        then Panicked "event mux closed"
               (mkState (mkRand (draws (rng w)) (S (pos (rng w))))
                        (eventer w) (onNodes w) (offNodes w) (onConns w))
        else Done i
               (mkState (mkRand (draws (rng w)) (S (pos (rng w))))
                  (mkMux false (posted (eventer w)
                                ++ [mkEntry "Node" "Off" (ObjNode sn)]))
                  (delete (Z.to_nat (draws (rng w) (pos (rng w))
                                     `mod` len (onNodes w))) (onNodes w))
                  (offNodes w ++ [ID sn])
                  (onConns w)).
Proof.
  intros Hlen.
  pose proof (mod_in_range (draws (rng w) (pos (rng w))) _ Hlen) as Hc.
  destruct (index_in_range _ _ Hc) as (sn & Hidx & Hlk).
  exists sn. split; [done |].
  unfold nodes_off_body, bind, gets. rewrite Intn_run by done. simpl.
  rewrite Hidx. simpl. rewrite post_run. simpl.
  destruct (stopped (eventer w)); [done |].
  rewrite remove_at_in_range by done. done.
Qed.

(** One turn of the third loop: two draws pick caller and callee; unless
    the caller sorts strictly first the turn is void and [i] is taken
    back, else the connection is posted and recorded. *)
Lemma conns_on_body_run (i : Z) (w : state) :
  0 < len (onNodes w) →
  ∃ x y,
    index (onNodes w) (draws (rng w) (pos (rng w)) `mod` len (onNodes w)) = Some x
    ∧ index (onNodes w) (draws (rng w) (S (pos (rng w))) `mod` len (onNodes w))
      = Some y
    ∧ conns_on_body i w
      = if bytes_Compare (ID x) (ID y) >=? 0
        then Done (i - 1)
               (mkState (mkRand (draws (rng w)) (S (S (pos (rng w)))))
                        (eventer w) (onNodes w) (offNodes w) (onConns w))
        else if stopped (eventer w)
        then Panicked "event mux closed"
               (mkState (mkRand (draws (rng w)) (S (S (pos (rng w)))))
                        (eventer w) (onNodes w) (offNodes w) (onConns w))
        else Done i
               (mkState (mkRand (draws (rng w)) (S (S (pos (rng w)))))
                  (mkMux false
                     (posted (eventer w)
                      ++ [mkEntry "Conn" "On" (ObjConn (mkSimConn (ID x) (ID y)))]))
                  (onNodes w) (offNodes w)
                  (onConns w ++ [mkSimConn (ID x) (ID y)])).
Proof.
  intros Hlen.
  pose proof (mod_in_range (draws (rng w) (pos (rng w))) _ Hlen) as Ha.
  pose proof (mod_in_range (draws (rng w) (S (pos (rng w)))) _ Hlen) as Hb.
  destruct (index_in_range _ _ Ha) as (x & Hx & _).
  destruct (index_in_range _ _ Hb) as (y & Hy & _).
  exists x, y. split; [done |]. split; [done |].
  unfold conns_on_body, bind, gets. rewrite Intn_run by done. simpl.
  rewrite Hx. simpl. rewrite Intn_run by done. simpl. rewrite Hy. simpl.
  destruct (bytes_Compare (ID x) (ID y) >=? 0); [done |].
  unfold bind. rewrite post_run. simpl. by destruct (stopped (eventer w)).
Qed.

Lemma conns_off_body_run (i : Z) (w : state) :
  0 < len (onConns w) →
  ∃ sc,
    index (onConns w) (draws (rng w) (pos (rng w)) `mod` len (onConns w)) = Some sc
    ∧ conns_off_body i w
      = if stopped (eventer w)
        then Panicked "event mux closed"
               (mkState (mkRand (draws (rng w)) (S (pos (rng w))))
                        (eventer w) (onNodes w) (offNodes w) (onConns w))
        else Done i
               (mkState (mkRand (draws (rng w)) (S (pos (rng w))))
                  (mkMux false (posted (eventer w)
                                ++ [mkEntry "Conn" "Off" (ObjConn sc)]))
                  (onNodes w) (offNodes w)
                  (delete (Z.to_nat (draws (rng w) (pos (rng w))
                                     `mod` len (onConns w))) (onConns w))).
Proof.
  intros Hlen.
  pose proof (mod_in_range (draws (rng w) (pos (rng w))) _ Hlen) as Hc.
  destruct (index_in_range _ _ Hc) as (sc & Hidx & Hlk).
  exists sc. split; [done |].
  unfold conns_off_body, bind, gets. rewrite Intn_run by done. simpl.
  rewrite Hidx. simpl. rewrite post_run. simpl.
  destruct (stopped (eventer w)); [done |].
  rewrite remove_at_in_range by done. done.
Qed.

(** *** Tick 0 *)

Lemma for_loop_exit cond body i w fuel :
  cond i w = false → for_loop fuel cond body i w = Done tt w.
Proof. intros Hc. destruct fuel; simpl; by rewrite Hc. Qed.

(** The first loop of tick 0 runs its full count while the pool lasts. *)
Lemma nodes_on_loop_run (d : Delta) (k : nat) : ∀ (i : Z) (w : state),
  stopped (eventer w) = false →
  (k ≤ length (offNodes w))%nat →
  On d = i + Z.of_nat k →
  ∃ w' evs,
    for_loop k (nodes_on_cond d) nodes_on_body i w = Done tt w'
    ∧ stopped (eventer w') = false
    ∧ posted (eventer w') = posted (eventer w) ++ evs
    ∧ length evs = k
    ∧ Forall (λ e, is_node_on e = true) evs
    ∧ length (onNodes w') = (length (onNodes w) + k)%nat
    ∧ onConns w' = onConns w
    ∧ draws (rng w') = draws (rng w)
    ∧ pos (rng w') = (pos (rng w) + k)%nat.
Proof.
  induction k as [| k IH]; intros i w Hrun Hlen Hi.
  - exists w, []. rewrite for_loop_exit.
    + rewrite app_nil_r. repeat split; try done; lia.
    + unfold nodes_on_cond. destruct (Z.ltb_spec i (On d)); [lia |].
      by rewrite andb_false_r.
  - assert (0 < len (offNodes w)) as Hpos by (unfold len; lia).
    destruct (nodes_on_body_run i w Hpos) as (id & Hid & Hbody).
    rewrite Hrun in Hbody. simpl. rewrite Hbody.
    assert (nodes_on_cond d i w = true) as ->.
    { unfold nodes_on_cond. destruct (Z.ltb_spec i (On d)); [| lia].
      rewrite andb_true_r. by apply Z.gtb_lt. }
    match goal with |- context [for_loop k _ _ _ ?w1] =>
      destruct (IH (i + 1) w1) as (w' & evs & Hloop & Hrun' & Hposted & Hn & Hall
                                   & Hon & Hconns & Hdraws & Hpos')
    end.
    + done.
    + simpl. rewrite length_delete by eauto. lia.
    + lia.
    + exists w', (mkEntry "Node" "On" (ObjNode (mkSimNode id)) :: evs).
      split; [done |]. split; [done |]. simpl in *.
      split; [by rewrite Hposted, <- app_assoc |].
      split; [by rewrite Hn |]. split; [by constructor |].
      split; [rewrite Hon, length_app; simpl; lia |].
      split; [done |]. split; [done |]. lia.
Qed.

Lemma conns_on_cond_eq (d : Delta) (i : Z) (w : state) :
  1 < len (onNodes w) → conns_on_cond d i w = (i <? On d).
Proof.
  intros Hlen. unfold conns_on_cond.
  by destruct (Z.gtb_spec (len (onNodes w)) 1); [| lia].
Qed.

(** The retry loop: whatever the draws and the fuel, it posts only ordered
    Conn/On events, never more than it was asked for, and exactly that many
    when it ends; and it ends within [fuel] turns when that many of the
    coming pairs of draws are ordered. *)
Lemma conns_on_loop_run (d : Delta) (fuel : nat) : ∀ (i : Z) (w : state),
  stopped (eventer w) = false →
  1 < len (onNodes w) →
  i ≤ On d →
  ∃ w' evs,
    world (for_loop fuel (conns_on_cond d) conns_on_body i w) = w'
    ∧ posted (eventer w') = posted (eventer w) ++ evs
    ∧ Forall (λ e, is_ordered_conn_on e = true) evs
    ∧ stopped (eventer w') = false
    ∧ onNodes w' = onNodes w
    ∧ offNodes w' = offNodes w
    ∧ length (onConns w') = (length (onConns w) + length evs)%nat
    ∧ (for_loop fuel (conns_on_cond d) conns_on_body i w = Done tt w'
         ∧ length evs = Z.to_nat (On d - i)
       ∨ for_loop fuel (conns_on_cond d) conns_on_body i w = Spinning w'
         ∧ (length evs < Z.to_nat (On d - i))%nat)
    ∧ ((Z.to_nat (On d - i)
        ≤ ordered_among (onNodes w) (draws (rng w)) (pos (rng w)) fuel)%nat →
       for_loop fuel (conns_on_cond d) conns_on_body i w = Done tt w').
Proof.
  induction fuel as [| fuel IH]; intros i w Hrun Hlen Hi.
  - exists w, []. simpl. rewrite conns_on_cond_eq by done. rewrite app_nil_r.
    destruct (Z.ltb_spec i (On d)); simpl.
    + repeat split; try done; try lia. right. split; [done | lia].
    + repeat split; try done; try lia. left. split; [done | lia].
  - simpl. rewrite conns_on_cond_eq by done.
    destruct (Z.ltb_spec i (On d)) as [Hlt | Hge]; simpl.
    2: { exists w, []. rewrite app_nil_r. repeat split; try done; try lia.
         left. split; [done | simpl; lia]. }
    assert (0 < len (onNodes w)) as Hpos by lia.
    destruct (conns_on_body_run i w Hpos) as (x & y & Hx & Hy & Hbody).
    rewrite Hbody. unfold ordered_draw. rewrite Hx, Hy. clear Hbody.
    destruct (Z.geb_spec (bytes_Compare (ID x) (ID y)) 0) as [Hcmp | Hcmp].
    + replace (i - 1 + 1) with i by lia.
      match goal with |- context [for_loop fuel _ _ _ ?w1] =>
        destruct (IH i w1) as (w' & evs & Hw & Hp & Hall & Hs & Hon & Hoff & Hc
                               & Hend & Hfair); [done | done | done |]
      end.
      simpl in *. exists w', evs. repeat split; try done.
      intros Hmany. apply Hfair.
      destruct (Z.ltb_spec (bytes_Compare (ID x) (ID y)) 0); [lia |]. simpl in Hmany. lia.
    + rewrite Hrun.
      match goal with |- context [for_loop fuel _ _ _ ?w1] =>
        destruct (IH (i + 1) w1) as (w' & evs & Hw & Hp & Hall & Hs & Hon & Hoff & Hc
                                     & Hend & Hfair); [done | done | lia |]
      end.
      simpl in *.
      exists w', (mkEntry "Conn" "On" (ObjConn (mkSimConn (ID x) (ID y))) :: evs).
      split; [done |]. split; [by rewrite Hp, <- app_assoc |].
      split.
      { constructor; [| done]. unfold is_ordered_conn_on. simpl.
        by destruct (Z.ltb_spec (bytes_Compare (ID x) (ID y)) 0); [| lia]. }
      split; [done |]. split; [done |]. split; [done |].
      split; [rewrite Hc, length_app; simpl; lia |].
      split.
      { destruct Hend as [[H1 H2] | [H1 H2]]; [left | right];
          (split; [done | simpl; lia]). }
      intros Hmany. apply Hfair.
      destruct (Z.ltb_spec (bytes_Compare (ID x) (ID y)) 0); [| lia]. lia.
Qed.

Lemma tick_0 (fuel : nat) (w : state) :
  tick fuel 0 w
  = bind (node_phase (mkDelta 10 0)) (λ _, conn_phase fuel (mkDelta 20 0)) w.
Proof. reflexivity. Qed.

(** The node loops of tick 0 from a pool of at least ten. *)
Lemma node_phase_0 (w : state) :
  stopped (eventer w) = false →
  (10 ≤ length (offNodes w))%nat →
  ∃ w' evs,
    node_phase (mkDelta 10 0) w = Done tt w'
    ∧ stopped (eventer w') = false
    ∧ posted (eventer w') = posted (eventer w) ++ evs
    ∧ length evs = 10%nat
    ∧ Forall (λ e, is_node_on e = true) evs
    ∧ length (onNodes w') = (length (onNodes w) + 10)%nat
    ∧ onConns w' = onConns w
    ∧ draws (rng w') = draws (rng w)
    ∧ pos (rng w') = (pos (rng w) + 10)%nat.
Proof.
  intros Hrun Hlen.
  destruct (nodes_on_loop_run (mkDelta 10 0) 10 0 w Hrun Hlen eq_refl)
    as (w' & evs & Hloop & H).
  exists w', evs. split; [| exact H].
  unfold node_phase, bind. simpl On. simpl Off.
  change (Z.to_nat 10) with 10%nat. rewrite Hloop. apply for_loop_exit.
  unfold nodes_off_cond. simpl. by rewrite andb_false_r.
Qed.

(** Tick 0 whatever the draws and the fuel: ten Node/On events, then only
    ordered Conn/On events, at most 20 of them and exactly 20 when the tick
    ends. *)
Lemma tick_0_posts_nothing_else (ids : list NodeID) (r : Rand) (m : TypeMux)
    (fuel : nat) :
  length ids = 100%nat →
  stopped m = false →
  ∃ nodes conns,
    posted (eventer (world (tick fuel 0 (start ids r m))))
    = posted m ++ nodes ++ conns
    ∧ length nodes = 10%nat
    ∧ Forall (λ e, is_node_on e = true) nodes
    ∧ (length conns ≤ 20)%nat
    ∧ Forall (λ e, is_ordered_conn_on e = true) conns
    ∧ (is_done (tick fuel 0 (start ids r m)) = true → length conns = 20%nat).
Proof.
  intros Hids Hrun. rewrite tick_0. unfold bind.
  destruct (node_phase_0 (start ids r m)) as
    (w1 & nodes & Hphase & Hrun1 & Hp1 & Hn1 & Hall1 & Hon1 & _);
    [done | simpl; lia |].
  rewrite Hphase. simpl in Hon1, Hp1.
  assert (1 < len (onNodes w1)) as Hlen by (unfold len; lia).
  destruct (conns_on_loop_run (mkDelta 20 0) fuel 0 w1 Hrun1 Hlen) as
    (w2 & conns & Hw2 & Hp2 & Hall2 & Hrun2 & _ & _ & _ & Hend & _);
    [simpl; lia |].
  exists nodes, conns. unfold conn_phase, bind.
  destruct Hend as [[Hdone Hn2] | [Hspin Hn2]].
  - rewrite Hdone. rewrite for_loop_exit.
    2: { unfold conns_off_cond. simpl. by rewrite andb_false_r. }
    simpl. rewrite Hp2, Hp1, <- app_assoc. simpl in Hn2.
    repeat split; try done; lia.
  - rewrite Hspin. simpl. rewrite Hp2, Hp1, <- app_assoc. simpl in Hn2.
    repeat split; try done; lia.
Qed.

(** C8: tick 0, from a fresh pool of 100 off nodes with no node on and no
    connection, on an eventer that accepts posts: the driver posts exactly
    10 Node/On events, then exactly 20 Conn/On events, and nothing else,
    and every connection posted has a caller that sorts strictly before
    its callee.  The retry loop redraws unordered pairs; the tick is over
    once 20 of the pairs drawn after the first ten draws were ordered. *)
Theorem tick_0_seeds_topology (ids : list NodeID) (r : Rand) (m : TypeMux)
    (fuel : nat) :
  length ids = 100%nat →
  stopped m = false →
  (20 ≤ ordered_among
          (onNodes (world (node_phase (mkDelta 10 0) (start ids r m))))
          (draws r) (pos r + 10) fuel)%nat →
  ∃ w' nodes conns,
    tick fuel 0 (start ids r m) = Done tt w'
    ∧ posted (eventer w') = posted m ++ nodes ++ conns
    ∧ length nodes = 10%nat
    ∧ Forall (λ e, is_node_on e = true) nodes
    ∧ length conns = 20%nat
    ∧ Forall (λ e, is_ordered_conn_on e = true) conns.
Proof.
  intros Hids Hrun Hfair. rewrite tick_0. unfold bind.
  destruct (node_phase_0 (start ids r m)) as
    (w1 & nodes & Hphase & Hrun1 & Hp1 & Hn1 & Hall1 & Hon1 & Hc1 & Hd1 & Hpos1);
    [done | simpl; lia |].
  rewrite Hphase in *. simpl in Hfair, Hon1, Hp1, Hd1, Hpos1.
  assert (1 < len (onNodes w1)) as Hlen by (unfold len; lia).
  destruct (conns_on_loop_run (mkDelta 20 0) fuel 0 w1 Hrun1 Hlen) as
    (w2 & conns & Hw2 & Hp2 & Hall2 & Hrun2 & Hon2 & Hoff2 & Hc2 & Hend & Hdone);
    [simpl; lia |].
  rewrite Hd1, Hpos1 in Hdone. specialize (Hdone Hfair).
  destruct Hend as [[_ Hn2] | [Hspin _]]; [| congruence].
  exists w2, nodes, conns.
  split.
  { unfold conn_phase, bind. rewrite Hdone. apply for_loop_exit.
    unfold conns_off_cond. simpl. by rewrite andb_false_r. }
  split; [by rewrite Hp2, Hp1, <- app_assoc |].
  repeat split; try done.
Qed.

Lemma tick_0_seeds_topology_witness :
  ∃ w' nodes conns,
    tick 20 0 (start Samples.hundred_ids Samples.counting Samples.running)
    = Done tt w'
    ∧ posted (eventer w') = posted Samples.running ++ nodes ++ conns
    ∧ length nodes = 10%nat
    ∧ Forall (λ e, is_node_on e = true) nodes
    ∧ length conns = 20%nat
    ∧ Forall (λ e, is_ordered_conn_on e = true) conns.
Proof.
  apply (tick_0_seeds_topology Samples.hundred_ids Samples.counting
           Samples.running 20); vm_compute; first [reflexivity | lia].
Defined.

(** *** The pools partition the generated identities *)

Lemma filter_ne_absent (x : NodeID) (l : list NodeID) :
  x ∉ l → filter (λ y, y ≠ x) l = l.
Proof.
  induction l as [| a l IH]; intros Hx; [done |].
  apply not_elem_of_cons in Hx as [Hne Hx].
  rewrite filter_cons_True by done. by rewrite IH.
Qed.

(** Without duplicates, dropping a value is dropping its position. *)
Lemma filter_ne_delete (l : list NodeID) : ∀ (c : nat) (x : NodeID),
  NoDup l → l !! c = Some x → filter (λ y, y ≠ x) l = delete c l.
Proof.
  induction l as [| a l IH]; intros c x Hnd Hc; [done |].
  apply NoDup_cons in Hnd as [Ha Hnd]. destruct c as [| c]; simpl in *.
  - injection Hc as ->. rewrite filter_cons_False by (intros H; by apply H).
    by apply filter_ne_absent.
  - assert (a ≠ x) as Hne.
    { intros ->. apply Ha. by eapply list_elem_of_lookup_2. }
    rewrite filter_cons_True by done. f_equal. by apply IH.
Qed.

Lemma replay_app (es es' : list Entry) : ∀ s,
  replay (es ++ es') s = replay es s ≫= replay es'.
Proof.
  induction es as [| e es IH]; intros s; simpl; [done |].
  destruct (apply_entry e s); simpl; [apply IH | done].
Qed.

Lemma partitioned_view ids base w w' :
  pools_of w' = pools_of w →
  posted (eventer w') = posted (eventer w) →
  partitioned ids base w → partitioned ids base w'.
Proof. unfold partitioned. by intros -> ->. Qed.

Lemma partitioned_NoDup ids base w :
  NoDup ids → partitioned ids base w → NoDup ((ID <$> onNodes w) ++ offNodes w).
Proof. intros Hnd [Hp _]. unfold partition_of in Hp. simpl in Hp. by rewrite Hp. Qed.

(** Posting one more legal event keeps the invariant. *)
Lemma partitioned_post ids base w w' e :
  partitioned ids base w →
  posted (eventer w') = posted (eventer w) ++ [e] →
  apply_entry e (pools_of w) = Some (pools_of w') →
  partition_of ids (pools_of w') →
  partitioned ids base w'.
Proof.
  intros [_ (new & Hposted & Hreplay)] Hp He Hpart. split; [done |].
  exists (new ++ [e]). split; [by rewrite Hp, Hposted, <- app_assoc |].
  rewrite replay_app, Hreplay. simpl. by rewrite He.
Qed.

Lemma nodes_on_body_partitioned ids base (d : Delta) (i : Z) (w : state) :
  NoDup ids →
  nodes_on_cond d i w = true →
  partitioned ids base w → partitioned ids base (world (nodes_on_body i w)).
Proof.
  intros Hnd Hcond Hinv. unfold nodes_on_cond in Hcond.
  apply andb_true_iff in Hcond as [Hlen%Z.gtb_lt _].
  destruct (nodes_on_body_run i w Hlen) as (id & Hid & ->).
  destruct (stopped (eventer w)); simpl.
  { by eapply partitioned_view. }
  pose proof (partitioned_NoDup _ _ _ Hnd Hinv) as Hnd'.
  apply NoDup_app in Hnd' as (_ & _ & Hoff).
  eapply partitioned_post; [done | done | |].
  - unfold apply_entry, pools_of. simpl.
    rewrite bool_decide_eq_true_2 by by eapply list_elem_of_lookup_2.
    rewrite fmap_app. simpl. by erewrite filter_ne_delete.
  - destruct Hinv as [Hp _]. unfold partition_of, pools_of in *. simpl in *.
    rewrite fmap_app, <- Hp. simpl. rewrite <- app_assoc. simpl.
    apply Permutation_app_head.
    symmetry. by apply delete_Permutation.
Qed.

Lemma nodes_off_body_partitioned ids base (d : Delta) (i : Z) (w : state) :
  NoDup ids →
  nodes_off_cond d i w = true →
  partitioned ids base w → partitioned ids base (world (nodes_off_body i w)).
Proof.
  intros Hnd Hcond Hinv. unfold nodes_off_cond in Hcond.
  apply andb_true_iff in Hcond as [Hlen%Z.gtb_lt _].
  destruct (nodes_off_body_run i w Hlen) as (sn & Hsn & ->).
  destruct (stopped (eventer w)); simpl.
  { by eapply partitioned_view. }
  pose proof (partitioned_NoDup _ _ _ Hnd Hinv) as Hnd'.
  apply NoDup_app in Hnd' as (Hon & _ & _).
  assert ((ID <$> onNodes w) !! Z.to_nat (draws (rng w) (pos (rng w))
                                           `mod` len (onNodes w)) = Some (ID sn))
    as Hid by by rewrite list_lookup_fmap, Hsn.
  eapply partitioned_post; [done | done | |].
  - unfold apply_entry, pools_of. simpl.
    rewrite bool_decide_eq_true_2 by by eapply list_elem_of_lookup_2.
    erewrite filter_ne_delete by done. by rewrite list_fmap_delete.
  - destruct Hinv as [Hp _]. unfold partition_of, pools_of in *. simpl in *.
    rewrite <- Hp. rewrite list_fmap_delete.
    rewrite (delete_Permutation (ID <$> onNodes w) _ _ Hid) at 2.
    rewrite app_assoc. rewrite <- Permutation_cons_append. done.
Qed.

Lemma conns_on_body_partitioned ids base (d : Delta) (i : Z) (w : state) :
  conns_on_cond d i w = true →
  partitioned ids base w → partitioned ids base (world (conns_on_body i w)).
Proof.
  intros Hcond Hinv. unfold conns_on_cond in Hcond.
  apply andb_true_iff in Hcond as [Hlen%Z.gtb_lt _].
  destruct (conns_on_body_run i w) as (x & y & _ & _ & ->); [lia |].
  destruct (bytes_Compare (ID x) (ID y) >=? 0); simpl.
  { by eapply partitioned_view. }
  destruct (stopped (eventer w)); simpl.
  { by eapply partitioned_view. }
  eapply partitioned_post; [done | done | done |]. by destruct Hinv.
Qed.

Lemma conns_off_body_partitioned ids base (d : Delta) (i : Z) (w : state) :
  conns_off_cond d i w = true →
  partitioned ids base w → partitioned ids base (world (conns_off_body i w)).
Proof.
  intros Hcond Hinv. unfold conns_off_cond in Hcond.
  apply andb_true_iff in Hcond as [Hlen%Z.gtb_lt _].
  destruct (conns_off_body_run i w Hlen) as (sc & _ & ->).
  destruct (stopped (eventer w)); simpl.
  { by eapply partitioned_view. }
  eapply partitioned_post; [done | done | done |]. by destruct Hinv.
Qed.

(** An invariant of the body, under the loop condition, is an invariant of
    the loop, wherever it stops. *)
Lemma for_loop_preserves (I : state → Prop) cond body :
  (∀ i w, cond i w = true → I w → I (world (body i w))) →
  ∀ fuel i w, I w → I (world (for_loop fuel cond body i w)).
Proof.
  intros Hbody. induction fuel as [| fuel IH]; intros i w Hw; simpl.
  - by destruct (cond i w).
  - destruct (cond i w) eqn:Hc; [| done].
    specialize (Hbody i w Hc Hw).
    destruct (body i w) as [i' w' | msg w' | w']; simpl in *; [| done | done].
    by apply IH.
Qed.

Lemma bind_preserves {A B} (I : state → Prop) (c : M A) (k : A → M B) w :
  I (world (c w)) → (∀ a w', I w' → I (world (k a w'))) → I (world (bind c k w)).
Proof.
  intros Hc Hk. unfold bind. destruct (c w) as [a w' | msg w' | w']; simpl in *; auto.
Qed.

Lemma oneOutOf_view (n : Z) (w : state) :
  0 < n →
  ∃ v w', oneOutOf n w = Done v w'
          ∧ eventer w' = eventer w ∧ onNodes w' = onNodes w
          ∧ offNodes w' = offNodes w ∧ onConns w' = onConns w.
Proof.
  intros Hn. unfold oneOutOf, bind. rewrite Intn_run by done.
  destruct (_ =? 0); eexists _, _; (split; [reflexivity | done]).
Qed.

(** [deltas] only draws. *)
Lemma deltas_view (n : Z) (w : state) :
  ∃ d0 d1 w', deltas n w = Done [d0; d1] w'
              ∧ eventer w' = eventer w ∧ onNodes w' = onNodes w
              ∧ offNodes w' = offNodes w ∧ onConns w' = onConns w.
Proof.
  unfold deltas. destruct (n =? 0).
  { eexists _, _, _. split; [reflexivity | done]. }
  unfold bind.
  destruct (oneOutOf_view 10 w) as (a & w1 & -> & He1 & Hon1 & Hoff1 & Hc1); [lia |].
  destruct (oneOutOf_view 10 w1) as (b & w2 & -> & He2 & Hon2 & Hoff2 & Hc2); [lia |].
  destruct (oneOutOf_view 2 w2) as (c & w3 & -> & He3 & Hon3 & Hoff3 & Hc3); [lia |].
  destruct (oneOutOf_view 2 w3) as (e & w4 & -> & He4 & Hon4 & Hoff4 & Hc4); [lia |].
  eexists _, _, _. split; [reflexivity |]. repeat split; congruence.
Qed.

Lemma tick_partitioned ids base (fuel : nat) (n : Z) (w : state) :
  NoDup ids →
  partitioned ids base w → partitioned ids base (world (tick fuel n w)).
Proof.
  intros Hnd Hinv. unfold tick.
  destruct (deltas_view n w) as (d0 & d1 & w' & Hds & He & Hon & Hoff & Hc).
  unfold bind at 1. rewrite Hds. simpl. unfold bind at 1. simpl.
  assert (partitioned ids base w') as Hinv'.
  { apply (partitioned_view ids base w w'); [| by rewrite He | done].
    unfold pools_of. by rewrite Hon, Hoff. }
  clear Hds. unfold node_phase, conn_phase.
  apply bind_preserves; [done | intros d2 w1 Hw1].
  apply bind_preserves.
  - apply bind_preserves.
    + apply for_loop_preserves; [| done].
      intros. by eapply nodes_on_body_partitioned.
    + intros _ w2 Hw2. apply for_loop_preserves; [| done].
      intros. by eapply nodes_off_body_partitioned.
  - intros _ w2 Hw2. apply bind_preserves.
    + apply for_loop_preserves; [| done].
      intros. by eapply conns_on_body_partitioned.
    + intros _ w3 Hw3. apply for_loop_preserves; [| done].
      intros. by eapply conns_off_body_partitioned.
Qed.

Lemma ticks_partitioned ids base (fuel k : nat) : ∀ (n : Z) (w : state),
  NoDup ids →
  partitioned ids base w → partitioned ids base (world (ticks fuel k n w)).
Proof.
  induction k as [| k IH]; intros n w Hnd Hinv; simpl; [done |].
  apply bind_preserves; [by apply tick_partitioned |].
  intros _ w' Hw'. by apply IH.
Qed.

(** C10: the driver keeps its 100 generated identities partitioned between
    the on-set and the off-pool.  After any number of ticks the two hold no
    identity twice or in common, together they are the generated
    identities (so their sizes add up to 100), and the events posted so
    far replay legally from "all off" to the current pools: each Node/On
    was for a node then in the off-pool and moved it to the on-set, each
    Node/Off was for a node then in the on-set and moved it back. *)
Theorem pools_partition_ids (ids : list NodeID) (r : Rand) (m : TypeMux)
    (fuel k : nat) :
  NoDup ids →
  length ids = 100%nat →
  ∃ on off,
    pools_of (world (MockNetwork fuel ids r m k)) = (on, off)
    ∧ NoDup (on ++ off)
    ∧ (∀ x, x ∈ on → x ∉ off)
    ∧ on ++ off ≡ₚ ids
    ∧ (length on + length off = 100)%nat
    ∧ ∃ new,
        posted (eventer (world (MockNetwork fuel ids r m k))) = posted m ++ new
        ∧ replay new ([], ids) = Some (on, off).
Proof.
  intros Hnd Hlen.
  assert (partitioned ids (posted m) (start ids r m)) as Hstart.
  { split; [by unfold partition_of |]. exists []. by rewrite app_nil_r. }
  apply (ticks_partitioned ids (posted m) fuel k 0) in Hstart as Hinv; [| done].
  fold (MockNetwork fuel ids r m k) in Hinv.
  pose proof (partitioned_NoDup _ _ _ Hnd Hinv) as Hnd'.
  destruct Hinv as [Hp Hreplay]. unfold partition_of in Hp.
  eexists _, _. split; [reflexivity |]. simpl in Hp.
  split; [done |]. split; [by apply NoDup_app in Hnd' as (_ & ? & _) |].
  split; [done |]. split; [| done].
  rewrite <- length_app. by rewrite Hp.
Qed.

Lemma pools_partition_ids_witness :
  ∃ on off,
    pools_of (world (MockNetwork 40 Samples.hundred_ids Samples.counting
                       Samples.running 20)) = (on, off)
    ∧ NoDup (on ++ off)
    ∧ (∀ x, x ∈ on → x ∉ off)
    ∧ on ++ off ≡ₚ Samples.hundred_ids
    ∧ (length on + length off = 100)%nat
    ∧ ∃ new,
        posted (eventer (world (MockNetwork 40 Samples.hundred_ids
                                  Samples.counting Samples.running 20)))
        = posted Samples.running ++ new
        ∧ replay new ([], Samples.hundred_ids) = Some (on, off).
Proof.
  apply (pools_partition_ids Samples.hundred_ids Samples.counting
           Samples.running 40 20).
  - apply (bool_decide_unpack _). vm_compute. reflexivity.
  - reflexivity.
Defined.

(** Twenty ticks on the counting source: every tick ends, 55 events are
    posted, one of them a Node/Off, and 14 nodes are on. *)
Example twenty_ticks :
  let o := MockNetwork 40 Samples.hundred_ids Samples.counting Samples.running 20 in
  is_done o = true
  ∧ length (posted (eventer (world o))) = 55%nat
  ∧ length (onNodes (world o)) = 14%nat
  ∧ replay (posted (eventer (world o))) ([], Samples.hundred_ids)
    = Some (pools_of (world o)).
Proof. vm_compute. repeat split. Qed.

(** A source that always draws 0 keeps picking the same node as caller and
    callee: after the ten Node/On events the tick is still redrawing. *)
Example zeros_keep_spinning :
  let o := tick 500 0 (start Samples.hundred_ids Samples.zeros Samples.running) in
  is_done o = false ∧ length (posted (eventer (world o))) = 10%nat.
Proof. vm_compute. done. Qed.

End DriverFacts.

(** * Laws of the journal's methods *)

Module JournalLaws.
Import Journal.
Import JournalFacts.

Lemma cursor_zero_wf self : cursor self = 0 → wf self.
Proof. intros Hc. unfold wf. rewrite Hc. pose proof (len_nonneg (events self)). lia. Qed.

Lemma cursor_zero_unread self : cursor self = 0 → unread self = events self.
Proof. intros Hc. unfold unread. by rewrite Hc. Qed.

(** Every operation leaves the cursor at 0 when it found it there. *)
Lemma exec_cursor_zero o self :
  cursor self = 0 → ∃ self', exec o self = Ok self' ∧ cursor self' = 0.
Proof.
  intros Hc. pose proof (cursor_zero_wf self Hc) as Hwf.
  destruct o as [evs | | St f s | n | |]; simpl; eauto.
  - rewrite Read_scan by done. destruct (scan f s (unread self)). simpl. eauto.
  - unfold Reset. rewrite reset_wf by done. eauto.
Qed.

Lemma run_cursor_zero ops : ∀ self,
  cursor self = 0 → ∃ self', run ops self = Ok self' ∧ cursor self' = 0.
Proof.
  induction ops as [| o ops IH]; intros self Hc; simpl; [eauto |].
  destruct (exec_cursor_zero o self Hc) as (self1 & -> & Hc1). simpl. by apply IH.
Qed.

(** X1: Whatever the methods called on a new journal, none panics, and between
    calls the cursor is 0: [Cursor()] returns 0 and [NewEntries()] is the
    length of the buffer. *)
Theorem Cursor_is_zero_between_calls (ops : list op) :
  ∃ self, run ops NewJournal = Ok self
          ∧ Cursor self = 0
          ∧ NewEntries self = len (events self).
Proof.
  destruct (run_cursor_zero ops NewJournal eq_refl) as (self & Hrun & Hc).
  exists self. split; [done |]. split; [done |]. unfold NewEntries. rewrite Hc. lia.
Qed.

(** X2: On a journal reached through the methods, [Reset(n)] changes nothing,
    whatever [n]: the cursor is already 0 and no entry precedes it. *)
Theorem Reset_changes_nothing (ops : list op) (n : Z) :
  ∃ self, run ops NewJournal = Ok self ∧ Reset n self = Ok self.
Proof.
  destruct (run_cursor_zero ops NewJournal eq_refl) as (self & Hrun & Hc).
  exists self. split; [done |]. unfold Reset.
  rewrite reset_wf by by apply cursor_zero_wf.
  rewrite cursor_zero_unread by done. destruct self as [cnt c evs]. simpl in *.
  by subst c.
Qed.

(** X3: [Read] takes its count out of the backlog: the count is between 0 and
    [NewEntries()], and afterwards [NewEntries()] is smaller by the count. *)
Theorem Read_takes_count_from_backlog {St} (f : predicate St) (s : St) (self : t) :
  wf self →
  ∃ (n : Z) (s' : St) (self' : t),
    Read f s self = Ok (s', self', (n, None))
    ∧ 0 ≤ n ≤ NewEntries self
    ∧ NewEntries self' = NewEntries self - n.
Proof.
  intros Hwf. rewrite Read_scan by done.
  pose proof (Read_ints_bounded f s self Hwf) as [Hn _].
  destruct (scan f s (unread self)) as [n s']. simpl in Hn.
  eexists _, _, _. split; [done |]. split; [done |].
  rewrite (NewEntries_unread self Hwf) in *. unfold NewEntries, len in *. simpl.
  rewrite length_drop. lia.
Qed.

Lemma Read_takes_count_from_backlog_witness :
  ∃ (n : Z) (s' : Z) (self' : t),
    Read (Samples.budget 1) 0 Samples.half_read = Ok (s', self', (n, None))
    ∧ 0 ≤ n ≤ NewEntries Samples.half_read
    ∧ NewEntries self' = NewEntries Samples.half_read - n.
Proof.
  apply (Read_takes_count_from_backlog (Samples.budget 1) 0 Samples.half_read).
  unfold wf. simpl. unfold len. simpl. lia.
Defined.

Lemma scan_accept_all l :
  scan (pure_pred (λ _, true)) tt l = (length l, tt).
Proof. induction l as [| e l IH]; simpl; [done |]. by rewrite IH. Qed.

(** X4: A predicate that accepts everything empties the backlog in one
    [Read], which returns what [NewEntries()] was. *)
Theorem Read_accepting_all_empties (self : t) :
  wf self →
  Read (pure_pred (λ _, true)) tt self
  = Ok (tt, mk (counter self) 0 [], (NewEntries self, None)).
Proof.
  intros Hwf. rewrite Read_scan by done. rewrite scan_accept_all.
  rewrite drop_all. by rewrite (NewEntries_unread self Hwf).
Qed.

Lemma Read_accepting_all_empties_witness :
  Read (pure_pred (λ _, true)) tt Samples.half_read
  = Ok (tt, mk 0 0 [], (NewEntries Samples.half_read, None)).
Proof.
  apply (Read_accepting_all_empties Samples.half_read).
  unfold wf. simpl. unfold len. simpl. lia.
Defined.

(** Where a stateless predicate stopped, it stops again. *)
Lemma scan_pure_stuck (p : Event → bool) l :
  scan (pure_pred p) tt (drop (scan (pure_pred p) tt l).1 l) = (0%nat, tt).
Proof.
  induction l as [| e l IH]; simpl; [done |].
  destruct (p e) eqn:Hp; simpl.
  - destruct (scan (pure_pred p) tt l) as [n []] eqn:Hs. simpl in *. done.
  - by rewrite Hp.
Qed.

(** X5: A [Read] with a stateless predicate stops at the first entry the
    predicate refuses, and that entry then blocks the journal: the same
    [Read] again returns 0 and changes nothing, however many entries wait
    behind it. *)
Theorem Read_again_is_blocked (p : Event → bool) (self : t) :
  wf self →
  ∃ (n : Z) (self' : t),
    Read (pure_pred p) tt self = Ok (tt, self', (n, None))
    ∧ Read (pure_pred p) tt self' = Ok (tt, self', (0, None)).
Proof.
  intros Hwf. rewrite Read_scan by done.
  pose proof (scan_pure_stuck p (unread self)) as Hstuck.
  destruct (scan (pure_pred p) tt (unread self)) as [n []]. simpl in Hstuck.
  eexists _, _. split; [done |].
  rewrite Read_scan by (apply cursor_zero_wf; done).
  rewrite cursor_zero_unread by done. simpl. by rewrite Hstuck.
Qed.

Lemma Read_again_is_blocked_witness :
  ∃ (n : Z) (self' : t),
    Read (pure_pred (λ e, Time e <? 4)) tt Samples.half_read
    = Ok (tt, self', (n, None))
    ∧ Read (pure_pred (λ e, Time e <? 4)) tt self' = Ok (tt, self', (0, None)).
Proof.
  apply (Read_again_is_blocked (λ e, Time e <? 4) Samples.half_read).
  unfold wf. simpl. unfold len. simpl. lia.
Defined.

(** X6: With nothing unread, [Read] returns 0 and nil without calling the
    predicate, and leaves an empty buffer. *)
Theorem Read_nothing_unread {St} (f : predicate St) (s : St) (self : t) :
  wf self →
  NewEntries self = 0 →
  Read f s self = Ok (s, mk (counter self) 0 [], (0, None))
  ∧ delivered f s self = [].
Proof.
  intros Hwf Hnone.
  assert (unread self = []) as Hun.
  { rewrite (NewEntries_unread self Hwf) in Hnone. unfold len in Hnone.
    apply length_zero_iff_nil. lia. }
  split.
  - rewrite Read_scan by done. by rewrite Hun.
  - rewrite delivered_scan by done. by rewrite Hun.
Qed.

Lemma Read_nothing_unread_witness :
  Read (Samples.budget 3) 0 (mk 0 2 [Samples.ev 1; Samples.ev 2])
  = Ok (0, mk 0 0 [], (0, None))
  ∧ delivered (Samples.budget 3) 0 (mk 0 2 [Samples.ev 1; Samples.ev 2]) = [].
Proof.
  apply (Read_nothing_unread (Samples.budget 3) 0 (mk 0 2 [Samples.ev 1; Samples.ev 2])).
  - unfold wf. simpl. unfold len. simpl. lia.
  - reflexivity.
Defined.

Lemma scan_recording {St} (f : predicate St) l :
  ∀ s acc,
    scan (recording f) (s, acc) l
    = let '(n, s') := scan f s l in (n, (s', acc ++ take n l)).
Proof.
  induction l as [| e l IH]; intros s acc; simpl.
  - by rewrite app_nil_r.
  - destruct (f e s) as [[|] s']; simpl; [| by rewrite app_nil_r].
    rewrite IH. destruct (scan f s' l) as [n s'']. by rewrite <- app_assoc.
Qed.

Lemma run_recording_keeps_all ops : ∀ acc self,
  cursor self = 0 →
  ∃ acc' self',
    run_recording ops acc self = Ok (acc', self')
    ∧ cursor self' = 0
    ∧ acc' ++ events self' = acc ++ events self ++ appended_events ops.
Proof.
  induction ops as [| o ops IH]; intros acc self Hc; simpl.
  { eexists _, _. split; [done |]. by rewrite app_nil_r. }
  pose proof (cursor_zero_wf self Hc) as Hwf.
  destruct o as [evs | | St f s | n | |]; simpl.
  - destruct (IH acc (append evs self) Hc) as (acc' & self' & -> & Hc' & Hall).
    eexists _, _. split; [done |]. split; [done |]. simpl in Hall.
    by rewrite Hall, <- !app_assoc.
  - destruct (IH acc self Hc) as (acc' & self' & -> & Hc' & Hall). eauto.
  - rewrite Read_scan by done. rewrite scan_recording.
    rewrite cursor_zero_unread by done.
    destruct (scan f s (events self)) as [k s']. simpl.
    match goal with |- context [run_recording ops ?a ?j] =>
      destruct (IH a j eq_refl) as (acc' & self' & -> & Hc' & Hall)
    end.
    eexists _, _. split; [done |]. split; [done |]. simpl in Hall.
    rewrite Hall. rewrite <- !app_assoc. f_equal. rewrite app_assoc.
    by rewrite take_drop.
  - unfold Reset. rewrite reset_wf by done. simpl.
    match goal with |- context [run_recording ops ?a ?j] =>
      destruct (IH a j eq_refl) as (acc' & self' & -> & Hc' & Hall)
    end.
    eexists _, _. split; [done |]. split; [done |]. simpl in Hall.
    by rewrite Hall, cursor_zero_unread.
  - destruct (IH acc self Hc) as (acc' & self' & -> & Hc' & Hall). eauto.
  - destruct (IH acc self Hc) as (acc' & self' & -> & Hc' & Hall). eauto.
Qed.

(** X7: No loss, no repetition, no reordering: after any sequence of appends,
    Reads, Resets and queries on a new journal, the events the predicates
    accepted, followed by the events still in the buffer, are exactly the
    events appended, in the order they were appended. *)
Theorem accepted_then_buffered_is_appended (ops : list op) :
  ∃ acc self,
    run_recording ops [] NewJournal = Ok (acc, self)
    ∧ acc ++ events self = appended_events ops.
Proof.
  destruct (run_recording_keeps_all ops [] NewJournal eq_refl)
    as (acc & self & Hrun & _ & Hall).
  by exists acc, self.
Qed.

Example recording_a_session :
  run_recording
    [OpAppend [Samples.ev 1; Samples.ev 2]; OpRead (Samples.budget 1) 0;
     OpAppend [Samples.ev 3]; OpReset 9; OpRead (Samples.before 3) tt]
    [] NewJournal
  = Ok ([Samples.ev 1; Samples.ev 2], mk 0 0 [Samples.ev 3]).
Proof. reflexivity. Qed.

End JournalLaws.

(** * Laws of the journal with its loop *)

Module FeedLaws.
Import Feed.
Import JournalFacts.
Import JournalLaws.

Lemma run_actions_app acts acts' s :
  run_actions (acts ++ acts') s = run_actions acts' (run_actions acts s).
Proof. unfold run_actions. apply foldl_app. Qed.

(** Every posted event is somewhere between the channel and the log. *)
Lemma open_run_keeps_posts acts : ∀ s,
  closes acts = false →
  closed s = false →
  closed (run_actions acts s) = false
  ∧ history (run_actions acts s) ++ in_flight (loop (run_actions acts s))
    ++ sending (run_actions acts s)
    = history s ++ in_flight (loop s) ++ sending s ++ posts acts.
Proof.
  induction acts as [| a acts IH]; intros s Hnc Hopen.
  { simpl. by rewrite app_nil_r. }
  change (run_actions (a :: acts) s) with (run_actions acts (step a s)).
  destruct a as [ev | | | o]; simpl in Hnc; try done.
  - assert (closed (step (Post ev) s) = false
            ∧ history (step (Post ev) s) = history s
            ∧ loop (step (Post ev) s) = loop s
            ∧ sending (step (Post ev) s) = sending s ++ [ev]) as (Hc' & Hh & Hl & Hs).
    { simpl. by rewrite Hopen. }
    destruct (IH (step (Post ev) s) Hnc Hc') as [Hc ->].
    split; [done |]. rewrite Hh, Hl, Hs. simpl. by rewrite <- !app_assoc.
  - assert (closed (step WriterStep s) = false
            ∧ history (step WriterStep s) ++ in_flight (loop (step WriterStep s))
              ++ sending (step WriterStep s)
              = history s ++ in_flight (loop s) ++ sending s) as [Hc' Heq].
    { simpl. unfold writer_step. rewrite Hopen.
      destruct (loop s) as [| ev |] eqn:Hl; simpl.
      - destruct (sending s) as [| ev rest] eqn:Hs; simpl; by rewrite ?Hl, ?Hs.
      - by rewrite <- app_assoc.
      - by rewrite Hl. }
    destruct (IH (step WriterStep s) Hnc Hc') as [Hc ->].
    split; [done |]. rewrite !app_assoc. rewrite <- (app_assoc (history _)).
    by rewrite Heq, <- !app_assoc.
  - assert (closed (step (Call o) s) = false
            ∧ history (step (Call o) s) = history s
            ∧ loop (step (Call o) s) = loop s
            ∧ sending (step (Call o) s) = sending s) as (Hc' & Hh & Hl & Hs).
    { simpl. destruct (Journal.is_append o); [done |].
      by destruct (Journal.exec o (journal s)). }
    destruct (IH (step (Call o) s) Hnc Hc') as [Hc ->].
    by rewrite Hh, Hl, Hs.
Qed.





End FeedLaws.

(** * Laws of WaitEntries *)

Module WaitingLaws.
Import Waiting.
Import JournalFacts.
Import JournalLaws.

Lemma waiting_run_cons a acts s :
  run_actions (a :: acts) s = run_actions acts (step a s).
Proof. reflexivity. Qed.

(** Once the channel is closed and empty, the backlog plus the event in
    flight cannot grow. *)
Lemma closed_step_keeps_waiting (n : Z) (a : action) (s : sys) :
  Feed.closed (feed s) = true →
  Feed.sending (feed s) = [] →
  Journal.cursor (Feed.journal (feed s)) = 0 →
  Journal.NewEntries (Feed.journal (feed s))
  + len (Feed.in_flight (Feed.loop (feed s))) < n →
  waiting s = Some n →
  Feed.closed (feed (step a s)) = true
  ∧ Feed.sending (feed (step a s)) = []
  ∧ Journal.cursor (Feed.journal (feed (step a s))) = 0
  ∧ Journal.NewEntries (Feed.journal (feed (step a s)))
    + len (Feed.in_flight (Feed.loop (feed (step a s)))) < n
  ∧ waiting (step a s) = Some n.
Proof.
  intros Hc Hs Hcur Hlt Hw. destruct a as [[ev | | | o] |]; simpl.
  - by rewrite Hc.
  - unfold Feed.writer_step. rewrite Hs, Hc.
    destruct (Feed.loop (feed s)) as [| ev |] eqn:Hl; simpl; rewrite ?Hl; simpl.
    + done.
    + repeat split; try done. unfold Journal.NewEntries in *. simpl.
      rewrite len_app. unfold len in *. simpl in *. lia.
    + done.
  - done.
  - destruct (Journal.is_append o) eqn:Happ; [done |].
    pose proof (cursor_zero_wf _ Hcur) as Hwf.
    destruct (exec_backlog o _ Hwf) as (j & Hex & Hb).
    destruct (exec_cursor_zero o _ Hcur) as (j' & Hex' & Hcur').
    rewrite Hex in Hex'. injection Hex' as <-. rewrite Hex. simpl.
    repeat split; try done.
    destruct o as [evs | | St f st | k | |]; simpl in *; try done; lia.
  - rewrite Hw.
    destruct (Z.ltb_spec (Journal.NewEntries (Feed.journal (feed s))) n) as [_ | Hge].
    + done.
    + pose proof (len_nonneg (Feed.in_flight (Feed.loop (feed s)))). lia.
Qed.

(** X10: [WaitEntries(n)] called on a closed journal that holds fewer than [n]
    unread entries, the event in flight counted, never returns, whatever
    happens next: nothing can be appended any more and a [Read] only makes
    the backlog smaller. *)
Theorem WaitEntries_hangs_on_closed_journal (n : Z) (s : Feed.sys)
    (acts : list action) :
  Feed.closed s = true →
  Feed.sending s = [] →
  Journal.cursor (Feed.journal s) = 0 →
  Journal.NewEntries (Feed.journal s) + len (Feed.in_flight (Feed.loop s)) < n →
  waiting (run_actions acts (WaitEntries n s)) = Some n.
Proof.
  intros Hc Hs Hcur Hlt.
  assert (∀ w, Feed.closed (feed w) = true → Feed.sending (feed w) = [] →
               Journal.cursor (Feed.journal (feed w)) = 0 →
               Journal.NewEntries (Feed.journal (feed w))
               + len (Feed.in_flight (Feed.loop (feed w))) < n →
               waiting w = Some n →
               waiting (run_actions acts w) = Some n) as Hgen.
  { induction acts as [| a acts IH]; intros w H1 H2 H3 H4 H5; [done |].
    rewrite waiting_run_cons.
    destruct (closed_step_keeps_waiting n a w H1 H2 H3 H4 H5)
      as (H1' & H2' & H3' & H4' & H5').
    by apply IH. }
  by apply Hgen.
Qed.

Lemma WaitEntries_hangs_on_closed_journal_witness :
  waiting (run_actions
             [Poll; Other (Feed.Post (Samples.ev 2)); Other Feed.WriterStep; Poll;
              Other Feed.WriterStep; Poll]
             (WaitEntries 2
                (Feed.step Feed.Close
                   (Feed.run_actions [Feed.Post (Samples.ev 1); Feed.WriterStep]
                      Feed.started))))
  = Some 2.
Proof.
  apply (WaitEntries_hangs_on_closed_journal 2
           (Feed.step Feed.Close
              (Feed.run_actions [Feed.Post (Samples.ev 1); Feed.WriterStep]
                 Feed.started))); reflexivity.
Defined.

Lemma waiting_run_app acts acts' s :
  run_actions (acts ++ acts') s = run_actions acts' (run_actions acts s).
Proof. unfold run_actions. apply foldl_app. Qed.

Lemma feed_of_run acts : ∀ s,
  feed (run_actions acts s) = Feed.run_actions (feed_actions acts) (feed s).
Proof.
  induction acts as [| a acts IH]; intros s; [done |].
  rewrite waiting_run_cons, IH. destruct a as [a' |]; simpl; [done |].
  destruct (waiting s) as [n |]; [| done].
  by destruct (Journal.NewEntries (Feed.journal (feed s)) <? n).
Qed.

(** The waiting goroutine keeps its [n] until it returns, and then stays
    returned. *)
Lemma waiting_of_run (n : Z) acts : ∀ s,
  waiting s = Some n ∨ waiting s = None →
  waiting (run_actions acts s) = Some n ∨ waiting (run_actions acts s) = None.
Proof.
  induction acts as [| a acts IH]; intros s Hw; [done |].
  rewrite waiting_run_cons. apply IH. destruct a as [a' |]; simpl; [done |].
  destruct Hw as [Hw | Hw]; rewrite Hw; [| by right].
  destruct (Journal.NewEntries (Feed.journal (feed s)) <? n); simpl; auto.
Qed.

(** Without a method call, the buffer is everything the loop appended; and
    without a [Close] the loop has not returned. *)
Lemma posts_and_turns_buffer acts : ∀ s,
  forallb Feed.is_post_or_turn acts = true →
  Journal.cursor (Feed.journal s) = 0 →
  Journal.events (Feed.journal s) = Feed.history s →
  Feed.closed s = false →
  Feed.loop s ≠ Feed.Returned →
  Journal.cursor (Feed.journal (Feed.run_actions acts s)) = 0
  ∧ Journal.events (Feed.journal (Feed.run_actions acts s))
    = Feed.history (Feed.run_actions acts s)
  ∧ Feed.loop (Feed.run_actions acts s) ≠ Feed.Returned
  ∧ Feed.closes acts = false.
Proof.
  induction acts as [| a acts IH]; intros s Hall Hc He Hopen Hl; [done |].
  simpl in Hall. apply andb_true_iff in Hall as [Ha Hall].
  change (Feed.run_actions (a :: acts) s)
    with (Feed.run_actions acts (Feed.step a s)).
  destruct a as [ev | | | o]; try done; simpl Feed.closes.
  - apply IH; [done | | | |]; simpl; by rewrite Hopen.
  - assert (Journal.cursor (Feed.journal (Feed.step Feed.WriterStep s)) = 0
            ∧ Journal.events (Feed.journal (Feed.step Feed.WriterStep s))
              = Feed.history (Feed.step Feed.WriterStep s)
            ∧ Feed.closed (Feed.step Feed.WriterStep s) = false
            ∧ Feed.loop (Feed.step Feed.WriterStep s) ≠ Feed.Returned)
      as (H1 & H2 & H3 & H4).
    { simpl. unfold Feed.writer_step.
      destruct (Feed.loop s) as [| ev |] eqn:Hl'; simpl; [| by rewrite He | done].
      destruct (Feed.sending s) as [| ev rest]; simpl; [| done].
      by rewrite Hopen, Hl'. }
    by apply IH.
Qed.

(** Left alone, the loop drains the channel: one step to receive and one
    to append per waiting event. *)
Lemma turns_drain (k : nat) : ∀ s,
  Feed.closed s = false →
  Feed.loop s ≠ Feed.Returned →
  (2 * length (Feed.sending s) + length (Feed.in_flight (Feed.loop s)) ≤ k)%nat →
  Feed.sending (Feed.run_actions (replicate k Feed.WriterStep) s) = []
  ∧ Feed.in_flight (Feed.loop (Feed.run_actions (replicate k Feed.WriterStep) s))
    = [].
Proof.
  induction k as [| k IH]; intros s Hopen Hl Hm.
  - simpl. destruct (Feed.sending s); simpl in Hm; [| lia].
    destruct (Feed.in_flight (Feed.loop s)); simpl in Hm; [done | lia].
  - change (Feed.run_actions (replicate (S k) Feed.WriterStep) s)
      with (Feed.run_actions (replicate k Feed.WriterStep)
              (Feed.step Feed.WriterStep s)).
    assert (Feed.closed (Feed.step Feed.WriterStep s) = false
            ∧ Feed.loop (Feed.step Feed.WriterStep s) ≠ Feed.Returned
            ∧ (2 * length (Feed.sending (Feed.step Feed.WriterStep s))
               + length (Feed.in_flight (Feed.loop (Feed.step Feed.WriterStep s)))
               ≤ k)%nat) as (H1 & H2 & H3).
    { simpl. unfold Feed.writer_step.
      destruct (Feed.loop s) as [| ev |] eqn:Hl'; simpl in *; [| | done].
      - destruct (Feed.sending s) as [| ev rest] eqn:Hs; simpl in *.
        + rewrite Hopen, Hs, Hl'. simpl. repeat split; try done. lia.
        + repeat split; try done. lia.
      - repeat split; try done. lia. }
    by apply IH.
Qed.

(** X11: While the journal stays subscribed and nobody reads, [WaitEntries(n)]
    returns once the loop has had its turns: after any interleaving of
    posts, steps of the loop and polls, two more steps of the loop per
    event posted are enough for the next poll to end the wait, for every
    [n] up to the number of events posted. *)
Theorem WaitEntries_returns_when_loop_caught_up (n : Z) (acts : list action)
    (k : nat) :
  forallb Feed.is_post_or_turn (feed_actions acts) = true →
  n ≤ len (Feed.posts (feed_actions acts)) →
  (2 * length (Feed.posts (feed_actions acts)) ≤ k)%nat →
  waiting (run_actions (acts ++ replicate k (Other Feed.WriterStep) ++ [Poll])
             (WaitEntries n Feed.started))
  = None.
Proof.
  intros Hall Hn Hk. rewrite !waiting_run_app.
  set (s1 := run_actions acts (WaitEntries n Feed.started)).
  set (s2 := run_actions (replicate k (Other Feed.WriterStep)) s1).
  assert (feed s1 = Feed.run_actions (feed_actions acts) Feed.started) as Hf1
    by apply feed_of_run.
  assert (feed_actions (replicate k (Other Feed.WriterStep))
          = replicate k Feed.WriterStep) as Hrep.
  { clear. induction k as [| k IH]; simpl; [done | by rewrite IH]. }
  assert (feed s2 = Feed.run_actions (replicate k Feed.WriterStep) (feed s1)) as Hf2.
  { unfold s2. by rewrite feed_of_run, Hrep. }
  destruct (posts_and_turns_buffer (feed_actions acts) Feed.started Hall
              eq_refl eq_refl eq_refl) as (_ & _ & Hl1 & Hnc); [done |].
  destruct (FeedLaws.open_run_keeps_posts (feed_actions acts) Feed.started Hnc eq_refl)
    as [Hopen1 Hposts1]. simpl in Hposts1.
  rewrite <- Hf1 in Hopen1, Hposts1, Hl1.
  assert (2 * length (Feed.sending (feed s1))
          + length (Feed.in_flight (Feed.loop (feed s1))) ≤ k)%nat as Hm.
  { apply (f_equal length) in Hposts1. rewrite !length_app in Hposts1. lia. }
  destruct (turns_drain k (feed s1) Hopen1 Hl1 Hm) as [Hs2 Hi2].
  rewrite <- Hf2 in Hs2, Hi2.
  assert (forallb Feed.is_post_or_turn
            (feed_actions acts ++ replicate k Feed.WriterStep) = true) as Hall2.
  { rewrite forallb_app, Hall. simpl. clear.
    induction k as [| k IH]; simpl; [done | exact IH]. }
  destruct (posts_and_turns_buffer _ Feed.started Hall2 eq_refl eq_refl eq_refl)
    as (Hc2 & He2 & _ & Hnc2); [done |].
  destruct (FeedLaws.open_run_keeps_posts _ Feed.started Hnc2 eq_refl)
    as [_ Hposts2]. simpl in Hposts2.
  rewrite FeedLaws.run_actions_app in Hc2, He2, Hposts2.
  rewrite <- Hf1, <- Hf2 in Hc2, He2, Hposts2.
  rewrite Hs2, Hi2, !app_nil_r in Hposts2.
  assert (Feed.posts (feed_actions acts ++ replicate k Feed.WriterStep)
          = Feed.posts (feed_actions acts)) as Hpp.
  { clear. induction (feed_actions acts) as [| a l IH]; simpl.
    - induction k as [| k IH]; simpl; [done | exact IH].
    - destruct a; simpl; by rewrite ?IH. }
  rewrite Hpp in Hposts2.
  assert (n ≤ Journal.NewEntries (Feed.journal (feed s2))) as Hready.
  { unfold Journal.NewEntries. by rewrite Hc2, He2, Hposts2, Z.sub_0_r. }
  destruct (waiting_of_run n (acts ++ replicate k (Other Feed.WriterStep))
              (WaitEntries n Feed.started)) as [Hw | Hw]; [by left | |];
    rewrite waiting_run_app in Hw; fold s1 in Hw; fold s2 in Hw;
    simpl; rewrite Hw; [| done].
  by destruct (Z.ltb_spec (Journal.NewEntries (Feed.journal (feed s2))) n); [lia |].
Qed.

Lemma WaitEntries_returns_when_loop_caught_up_witness :
  waiting (run_actions
             ([Poll; Other (Feed.Post (Samples.ev 1)); Poll;
               Other (Feed.Post (Samples.ev 2)); Other Feed.WriterStep]
              ++ replicate 4 (Other Feed.WriterStep) ++ [Poll])
             (WaitEntries 2 Feed.started))
  = None.
Proof.
  apply (WaitEntries_returns_when_loop_caught_up 2
           [Poll; Other (Feed.Post (Samples.ev 1)); Poll;
            Other (Feed.Post (Samples.ev 2)); Other Feed.WriterStep] 4).
  - reflexivity.
  - unfold len. simpl. lia.
  - simpl. lia.
Defined.

End WaitingLaws.

(** * Laws of the driver *)

Module DriverLaws.
Import Driver.
Import JournalFacts.
Import DriverFacts.

(** An invariant that does not look at the random source and that the four
    loop bodies keep is kept by a tick, wherever the tick stops. *)
Lemma tick_invariant (I : state → Prop) :
  (∀ w w', eventer w' = eventer w → onNodes w' = onNodes w →
           offNodes w' = offNodes w → onConns w' = onConns w → I w → I w') →
  (∀ d i w, nodes_on_cond d i w = true → I w → I (world (nodes_on_body i w))) →
  (∀ d i w, nodes_off_cond d i w = true → I w → I (world (nodes_off_body i w))) →
  (∀ d i w, conns_on_cond d i w = true → I w → I (world (conns_on_body i w))) →
  (∀ d i w, conns_off_cond d i w = true → I w → I (world (conns_off_body i w))) →
  ∀ fuel n w, I w → I (world (tick fuel n w)).
Proof.
  intros Hview H1 H2 H3 H4 fuel n w Hw. unfold tick.
  destruct (deltas_view n w) as (d0 & d1 & w' & Hds & He & Hon & Hoff & Hc).
  unfold bind at 1. rewrite Hds. simpl. unfold bind at 1. simpl.
  assert (I w') as Hw' by by apply (Hview w w').
  unfold node_phase, conn_phase.
  apply bind_preserves; [done | intros d2 w1 Hw1].
  apply bind_preserves.
  - apply bind_preserves.
    + apply for_loop_preserves; [| done]. intros. by eapply H1.
    + intros _ w2 Hw2. apply for_loop_preserves; [| done]. intros. by eapply H2.
  - intros _ w2 Hw2. apply bind_preserves.
    + apply for_loop_preserves; [| done]. intros. by eapply H3.
    + intros _ w3 Hw3. apply for_loop_preserves; [| done]. intros. by eapply H4.
Qed.

Lemma ticks_invariant (I : state → Prop) (fuel : nat) :
  (∀ n w, I w → I (world (tick fuel n w))) →
  ∀ k n w, I w → I (world (ticks fuel k n w)).
Proof.
  intros Htick. induction k as [| k IH]; intros n w Hw; simpl; [done |].
  apply bind_preserves; [by apply Htick |]. intros _ w' Hw'. by apply IH.
Qed.

(** *** Connections are always ordered *)

Lemma ordered_conns_invariant (base : list Entry) (fuel : nat) (n : Z) (w : state) :
  (Forall (λ sc, ordered_conn sc = true) (onConns w)
   ∧ ∃ new, posted (eventer w) = base ++ new
            ∧ Forall (λ e, names_ordered_conn e = true) new) →
  Forall (λ sc, ordered_conn sc = true) (onConns (world (tick fuel n w)))
  ∧ ∃ new, posted (eventer (world (tick fuel n w))) = base ++ new
           ∧ Forall (λ e, names_ordered_conn e = true) new.
Proof.
  revert fuel n w.
  apply (tick_invariant
           (λ w, Forall (λ sc, ordered_conn sc = true) (onConns w)
                 ∧ ∃ new, posted (eventer w) = base ++ new
                          ∧ Forall (λ e, names_ordered_conn e = true) new)).
  - by intros w w' -> _ _ ->.
  - intros d i w Hcond [Hconns (new & Hp & Hnew)]. unfold nodes_on_cond in Hcond.
    apply andb_true_iff in Hcond as [Hlen%Z.gtb_lt _].
    destruct (nodes_on_body_run i w Hlen) as (id & _ & ->).
    destruct (stopped (eventer w)); simpl; [eauto |].
    split; [done |]. exists (new ++ [mkEntry "Node" "On" (ObjNode (mkSimNode id))]).
    split; [by rewrite Hp, <- app_assoc |]. apply Forall_app. split; [done |].
    by constructor.
  - intros d i w Hcond [Hconns (new & Hp & Hnew)]. unfold nodes_off_cond in Hcond.
    apply andb_true_iff in Hcond as [Hlen%Z.gtb_lt _].
    destruct (nodes_off_body_run i w Hlen) as (sn & _ & ->).
    destruct (stopped (eventer w)); simpl; [eauto |].
    split; [done |]. exists (new ++ [mkEntry "Node" "Off" (ObjNode sn)]).
    split; [by rewrite Hp, <- app_assoc |]. apply Forall_app. split; [done |].
    by constructor.
  - intros d i w Hcond [Hconns (new & Hp & Hnew)]. unfold conns_on_cond in Hcond.
    apply andb_true_iff in Hcond as [Hlen%Z.gtb_lt _].
    destruct (conns_on_body_run i w) as (x & y & _ & _ & ->); [lia |].
    destruct (Z.geb_spec (bytes_Compare (ID x) (ID y)) 0) as [Hcmp | Hcmp];
      simpl; [eauto |].
    destruct (stopped (eventer w)); simpl; [eauto |].
    assert (ordered_conn (mkSimConn (ID x) (ID y)) = true) as Hord.
    { unfold ordered_conn. simpl. by apply Z.ltb_lt. }
    split; [apply Forall_app; split; [done | by constructor] |].
    exists (new ++ [mkEntry "Conn" "On" (ObjConn (mkSimConn (ID x) (ID y)))]).
    split; [by rewrite Hp, <- app_assoc |]. apply Forall_app. split; [done |].
    by constructor.
  - intros d i w Hcond [Hconns (new & Hp & Hnew)]. unfold conns_off_cond in Hcond.
    apply andb_true_iff in Hcond as [Hlen%Z.gtb_lt _].
    destruct (conns_off_body_run i w Hlen) as (sc & Hsc & ->).
    destruct (stopped (eventer w)); simpl; [eauto |].
    assert (ordered_conn sc = true) as Hord.
    { rewrite Forall_forall in Hconns. apply Hconns.
      destruct (index_in_range (onConns w)
                  (draws (rng w) (pos (rng w)) `mod` len (onConns w)))
        as (sc' & Hsc' & Hlk); [by apply mod_in_range |].
      rewrite Hsc in Hsc'. injection Hsc' as <-. by eapply list_elem_of_lookup_2. }
    split; [by apply Forall_delete |].
    exists (new ++ [mkEntry "Conn" "Off" (ObjConn sc)]).
    split; [by rewrite Hp, <- app_assoc |]. apply Forall_app. split; [done |].
    by constructor.
Qed.

(** X12: Every event about a connection that the driver ever posts, Conn/On or
    Conn/Off, at tick 0 or later, names a caller that sorts strictly before
    the callee, so never a node connected to itself; and so does every
    connection the driver holds as on. *)
Theorem every_connection_is_ordered (ids : list NodeID) (r : Rand) (m : TypeMux)
    (fuel k : nat) :
  Forall (λ sc, ordered_conn sc = true)
         (onConns (world (MockNetwork fuel ids r m k)))
  ∧ ∃ new,
      posted (eventer (world (MockNetwork fuel ids r m k))) = posted m ++ new
      ∧ Forall (λ e, names_ordered_conn e = true) new.
Proof.
  unfold MockNetwork.
  apply (ticks_invariant
           (λ w, Forall (λ sc, ordered_conn sc = true) (onConns w)
                 ∧ ∃ new, posted (eventer w) = posted m ++ new
                          ∧ Forall (λ e, names_ordered_conn e = true) new) fuel).
  - intros n w. apply ordered_conns_invariant.
  - split; [done |]. exists []. by rewrite app_nil_r.
Qed.

(** *** The connections that are on *)

Lemma replay_conns_app (es es' : list Entry) : ∀ l,
  replay_conns (es ++ es') l = replay_conns es l ≫= replay_conns es'.
Proof.
  induction es as [| e es IH]; intros l; simpl; [done |].
  destruct (apply_conn_entry e l); simpl; [apply IH | done].
Qed.

Lemma remove_first_Permutation (x : SimConn) (l : list SimConn) :
  x ∈ l → l ≡ₚ x :: remove_first x l.
Proof.
  induction l as [| y l IH]; intros Hx; [by apply elem_of_nil in Hx |].
  simpl. destruct (decide (x = y)) as [-> | Hne]; [done |].
  apply elem_of_cons in Hx as [-> | Hx]; [done |].
  rewrite (IH Hx) at 1. apply Permutation_swap.
Qed.

Lemma conns_replay_invariant (base : list Entry) (fuel : nat) (n : Z) (w : state) :
  (∃ new l, posted (eventer w) = base ++ new
            ∧ replay_conns new [] = Some l ∧ l ≡ₚ onConns w) →
  ∃ new l, posted (eventer (world (tick fuel n w))) = base ++ new
           ∧ replay_conns new [] = Some l
           ∧ l ≡ₚ onConns (world (tick fuel n w)).
Proof.
  revert fuel n w.
  apply (tick_invariant
           (λ w, ∃ new l, posted (eventer w) = base ++ new
                          ∧ replay_conns new [] = Some l ∧ l ≡ₚ onConns w)).
  - by intros w w' -> _ _ ->.
  - intros d i w Hcond (new & l & Hp & Hr & Hl). unfold nodes_on_cond in Hcond.
    apply andb_true_iff in Hcond as [Hlen%Z.gtb_lt _].
    destruct (nodes_on_body_run i w Hlen) as (id & _ & ->).
    destruct (stopped (eventer w)); simpl; [eauto |].
    exists (new ++ [mkEntry "Node" "On" (ObjNode (mkSimNode id))]), l.
    split; [by rewrite Hp, <- app_assoc |]. split; [| done].
    by rewrite replay_conns_app, Hr.
  - intros d i w Hcond (new & l & Hp & Hr & Hl). unfold nodes_off_cond in Hcond.
    apply andb_true_iff in Hcond as [Hlen%Z.gtb_lt _].
    destruct (nodes_off_body_run i w Hlen) as (sn & _ & ->).
    destruct (stopped (eventer w)); simpl; [eauto |].
    exists (new ++ [mkEntry "Node" "Off" (ObjNode sn)]), l.
    split; [by rewrite Hp, <- app_assoc |]. split; [| done].
    by rewrite replay_conns_app, Hr.
  - intros d i w Hcond (new & l & Hp & Hr & Hl). unfold conns_on_cond in Hcond.
    apply andb_true_iff in Hcond as [Hlen%Z.gtb_lt _].
    destruct (conns_on_body_run i w) as (x & y & _ & _ & ->); [lia |].
    destruct (bytes_Compare (ID x) (ID y) >=? 0); simpl; [eauto |].
    destruct (stopped (eventer w)); simpl; [eauto |].
    exists (new ++ [mkEntry "Conn" "On" (ObjConn (mkSimConn (ID x) (ID y)))]),
           (l ++ [mkSimConn (ID x) (ID y)]).
    split; [by rewrite Hp, <- app_assoc |].
    split; [by rewrite replay_conns_app, Hr | by rewrite Hl].
  - intros d i w Hcond (new & l & Hp & Hr & Hl). unfold conns_off_cond in Hcond.
    apply andb_true_iff in Hcond as [Hlen%Z.gtb_lt _].
    destruct (conns_off_body_run i w Hlen) as (sc & Hsc & ->).
    destruct (stopped (eventer w)); simpl; [eauto |].
    destruct (index_in_range (onConns w)
                (draws (rng w) (pos (rng w)) `mod` len (onConns w)))
      as (sc' & Hsc' & Hlk); [by apply mod_in_range |].
    rewrite Hsc in Hsc'. injection Hsc' as <-.
    assert (sc ∈ l) as Hin by (rewrite Hl; by eapply list_elem_of_lookup_2).
    exists (new ++ [mkEntry "Conn" "Off" (ObjConn sc)]), (remove_first sc l).
    split; [by rewrite Hp, <- app_assoc |]. split.
    + rewrite replay_conns_app, Hr. simpl. unfold apply_conn_entry. simpl.
      by rewrite bool_decide_eq_true_2 by done.
    + apply (Permutation_cons_inv (a:=sc)).
      rewrite <- (remove_first_Permutation sc l Hin), Hl.
      by apply delete_Permutation.
Qed.

(** X13: The events about connections replay legally, at every tick: each
    Conn/Off names a connection that is on when it is posted and takes one
    copy of it away, each Conn/On adds one, and what is left is, up to
    order, the connections the driver holds as on.  Turning a node off
    takes none of its connections away. *)
Theorem connections_replay_from_posted (ids : list NodeID) (r : Rand) (m : TypeMux)
    (fuel k : nat) :
  ∃ new l,
    posted (eventer (world (MockNetwork fuel ids r m k))) = posted m ++ new
    ∧ replay_conns new [] = Some l
    ∧ l ≡ₚ onConns (world (MockNetwork fuel ids r m k)).
Proof.
  unfold MockNetwork.
  apply (ticks_invariant
           (λ w, ∃ new l, posted (eventer w) = posted m ++ new
                          ∧ replay_conns new [] = Some l ∧ l ≡ₚ onConns w) fuel).
  - intros n w. apply conns_replay_invariant.
  - exists [], []. by rewrite app_nil_r.
Qed.

(** *** No identity is lost *)

(** X22: Whatever identities the driver starts from, distinct or not, and
    whatever the draws, the identities of the nodes that are on together
    with the off-pool are, up to order, the identities it started from, at
    every tick and wherever a tick stops: turning nodes on and off invents
    no identity and loses none. *)
Theorem pools_keep_every_identity (ids : list NodeID) (r : Rand) (m : TypeMux)
    (fuel k : nat) :
  (ID <$> onNodes (world (MockNetwork fuel ids r m k)))
  ++ offNodes (world (MockNetwork fuel ids r m k)) ≡ₚ ids.
Proof.
  unfold MockNetwork.
  apply (ticks_invariant (λ w, (ID <$> onNodes w) ++ offNodes w ≡ₚ ids) fuel);
    [| done].
  apply (tick_invariant (λ w, (ID <$> onNodes w) ++ offNodes w ≡ₚ ids)).
  - by intros w w' _ -> -> _.
  - intros d i w Hcond Hp. unfold nodes_on_cond in Hcond.
    apply andb_true_iff in Hcond as [Hlen%Z.gtb_lt _].
    destruct (nodes_on_body_run i w Hlen) as (id & Hid & ->).
    destruct (stopped (eventer w)); simpl; [done |].
    rewrite fmap_app, <- Hp. simpl. rewrite <- app_assoc. simpl.
    apply Permutation_app_head. symmetry. by apply delete_Permutation.
  - intros d i w Hcond Hp. unfold nodes_off_cond in Hcond.
    apply andb_true_iff in Hcond as [Hlen%Z.gtb_lt _].
    destruct (nodes_off_body_run i w Hlen) as (sn & Hsn & ->).
    destruct (stopped (eventer w)); simpl; [done |].
    assert ((ID <$> onNodes w) !! Z.to_nat (draws (rng w) (pos (rng w))
                                             `mod` len (onNodes w)) = Some (ID sn))
      as Hid by by rewrite list_lookup_fmap, Hsn.
    rewrite <- Hp, list_fmap_delete.
    rewrite (delete_Permutation (ID <$> onNodes w) _ _ Hid) at 2.
    rewrite app_assoc. by rewrite <- Permutation_cons_append.
  - intros d i w Hcond Hp. unfold conns_on_cond in Hcond.
    apply andb_true_iff in Hcond as [Hlen%Z.gtb_lt _].
    destruct (conns_on_body_run i w) as (x & y & _ & _ & ->); [lia |].
    destruct (bytes_Compare (ID x) (ID y) >=? 0); simpl; [done |].
    by destruct (stopped (eventer w)).
  - intros d i w Hcond Hp. unfold conns_off_cond in Hcond.
    apply andb_true_iff in Hcond as [Hlen%Z.gtb_lt _].
    destruct (conns_off_body_run i w Hlen) as (sc & _ & ->).
    by destruct (stopped (eventer w)).
Qed.

(** *** What a tick asks for *)

Lemma oneOutOf_run (n : Z) (w : state) :
  0 < n →
  ∃ v, oneOutOf n w
       = Done v (mkState (mkRand (draws (rng w)) (S (pos (rng w))))
                         (eventer w) (onNodes w) (offNodes w) (onConns w))
       ∧ (v = 1 ∧ draws (rng w) (pos (rng w)) `mod` n = 0
          ∨ v = 0 ∧ draws (rng w) (pos (rng w)) `mod` n ≠ 0).
Proof.
  intros Hn. unfold oneOutOf, bind. rewrite Intn_run by done.
  destruct (Z.eqb_spec (draws (rng w) (pos (rng w)) `mod` n) 0);
    eexists; (split; [reflexivity |]); auto.
Qed.

(** After tick 0 [deltas] asks for at most one of each. *)
Lemma deltas_later (n : Z) (w : state) :
  n ≠ 0 →
  ∃ d0 d1 w',
    deltas n w = Done [d0; d1] w'
    ∧ eventer w' = eventer w
    ∧ 0 ≤ On d0 ≤ 1 ∧ 0 ≤ Off d0 ≤ 1 ∧ 0 ≤ On d1 ≤ 1 ∧ 0 ≤ Off d1 ≤ 1.
Proof.
  intros Hn. unfold deltas. destruct (Z.eqb_spec n 0) as [| _]; [done |].
  unfold bind.
  destruct (oneOutOf_run 10 w) as (a & -> & Ha); [lia |].
  match goal with |- context [oneOutOf 10 ?w1] =>
    destruct (oneOutOf_run 10 w1) as (b & -> & Hb); [lia |] end.
  match goal with |- context [oneOutOf 2 ?w1] =>
    destruct (oneOutOf_run 2 w1) as (c & -> & Hc); [lia |] end.
  match goal with |- context [oneOutOf 2 ?w1] =>
    destruct (oneOutOf_run 2 w1) as (e & -> & He); [lia |] end.
  eexists _, _, _. split; [reflexivity |]. simpl. repeat split; try done; lia.
Qed.

(** X14: [deltas] never panics.  For tick 0 it asks for 10 nodes and 20
    connections on and nothing off, without touching the random source;
    for any other tick it asks for 0 or 1 of each of the four, from exactly
    four draws, and changes nothing else. *)
Theorem deltas_asks_for_little (n : Z) (w : state) :
  ∃ d0 d1 w',
    deltas n w = Done [d0; d1] w'
    ∧ eventer w' = eventer w ∧ onNodes w' = onNodes w
    ∧ offNodes w' = offNodes w ∧ onConns w' = onConns w
    ∧ draws (rng w') = draws (rng w)
    ∧ (n = 0 → d0 = mkDelta 10 0 ∧ d1 = mkDelta 20 0 ∧ pos (rng w') = pos (rng w))
    ∧ (n ≠ 0 → 0 ≤ On d0 ≤ 1 ∧ 0 ≤ Off d0 ≤ 1 ∧ 0 ≤ On d1 ≤ 1 ∧ 0 ≤ Off d1 ≤ 1
               ∧ pos (rng w') = (pos (rng w) + 4)%nat).
Proof.
  unfold deltas. destruct (Z.eqb_spec n 0) as [-> | Hne].
  { eexists _, _, _. split; [reflexivity |]. repeat split; done. }
  unfold bind.
  destruct (oneOutOf_run 10 w) as (a & -> & Ha); [lia |].
  match goal with |- context [oneOutOf 10 ?w1] =>
    destruct (oneOutOf_run 10 w1) as (b & -> & Hb); [lia |] end.
  match goal with |- context [oneOutOf 2 ?w1] =>
    destruct (oneOutOf_run 2 w1) as (c & -> & Hc); [lia |] end.
  match goal with |- context [oneOutOf 2 ?w1] =>
    destruct (oneOutOf_run 2 w1) as (e & -> & He); [lia |] end.
  eexists _, _, _. split; [reflexivity |]. simpl.
  repeat split; try done; try lia.
Qed.

Lemma deltas_asks_for_little_witness :
  ∃ d0 d1 w',
    deltas 3 (start Samples.hundred_ids Samples.counting Samples.running)
    = Done [d0; d1] w'
    ∧ 0 ≤ On d0 ≤ 1 ∧ 0 ≤ Off d0 ≤ 1 ∧ 0 ≤ On d1 ≤ 1 ∧ 0 ≤ Off d1 ≤ 1
    ∧ pos (rng w') = 4%nat.
Proof.
  destruct (deltas_asks_for_little 3
              (start Samples.hundred_ids Samples.counting Samples.running))
    as (d0 & d1 & w' & Hd & _ & _ & _ & _ & _ & _ & Hlater).
  exists d0, d1, w'. split; [exact Hd |]. apply Hlater. discriminate.
Defined.

(** A loop whose body, each time round, either posts nothing and does not
    move [i] forward, or posts one event of kind [Q] and leaves [i] to be
    incremented, posts at most [hi - i] events, all of kind [Q]. *)
Lemma for_loop_posts_within (Q : Entry → Prop) (hi : Z) cond body :
  (∀ i w, cond i w = true → i < hi) →
  (∀ i w, cond i w = true →
     (posted (eventer (world (body i w))) = posted (eventer w)
      ∧ ∀ i' w', body i w = Done i' w' → i' = i - 1)
     ∨ ∃ e w', Q e ∧ body i w = Done i w'
               ∧ posted (eventer w') = posted (eventer w) ++ [e]) →
  ∀ fuel i w,
    posts_within Q (Z.to_nat (hi - i)) w (for_loop fuel cond body i w).
Proof.
  intros Hhi Hbody. unfold posts_within.
  induction fuel as [| fuel IH]; intros i w; simpl.
  - destruct (cond i w); exists []; rewrite app_nil_r;
      (split; [done |]); (split; [done | simpl; lia]).
  - destruct (cond i w) eqn:Hc.
    2: { exists []. rewrite app_nil_r. split; [done |]. split; [done | simpl; lia]. }
    specialize (Hhi i w Hc).
    destruct (Hbody i w Hc) as [[Hsame Hback] | (e & w' & He & Hdone & Hp)].
    + destruct (body i w) as [i' w' | msg w' | w'] eqn:Hb; simpl in *.
      * rewrite (Hback i' w' eq_refl). replace (i - 1 + 1) with i by lia.
        destruct (IH i w') as (evs & Hevs & Hall & Hlen).
        exists evs. by rewrite Hevs, Hsame.
      * exists []. rewrite app_nil_r. split; [done |]. split; [done | simpl; lia].
      * exists []. rewrite app_nil_r. split; [done |]. split; [done | simpl; lia].
    + rewrite Hdone. destruct (IH (i + 1) w') as (evs & Hevs & Hall & Hlen).
      exists (e :: evs). split; [by rewrite Hevs, Hp, <- app_assoc |].
      split; [by constructor |]. simpl. lia.
Qed.

Lemma nodes_on_loop_posts (d : Delta) (fuel : nat) (i : Z) (w : state) :
  posts_within (λ e, is_node_on e = true) (Z.to_nat (On d - i)) w
    (for_loop fuel (nodes_on_cond d) nodes_on_body i w).
Proof.
  apply for_loop_posts_within.
  - intros j v Hc. unfold nodes_on_cond in Hc.
    apply andb_true_iff in Hc as [_ Hc]. by apply Z.ltb_lt.
  - intros j v Hc. unfold nodes_on_cond in Hc.
    apply andb_true_iff in Hc as [Hlen%Z.gtb_lt _].
    destruct (nodes_on_body_run j v Hlen) as (id & _ & ->).
    destruct (stopped (eventer v)); [by left | right].
    eexists _, _. split; [| split; [reflexivity | done]]. done.
Qed.

Lemma nodes_off_loop_posts (d : Delta) (fuel : nat) (i : Z) (w : state) :
  posts_within (λ e, is_node_off e = true) (Z.to_nat (Off d - i)) w
    (for_loop fuel (nodes_off_cond d) nodes_off_body i w).
Proof.
  apply for_loop_posts_within.
  - intros j v Hc. unfold nodes_off_cond in Hc.
    apply andb_true_iff in Hc as [_ Hc]. by apply Z.ltb_lt.
  - intros j v Hc. unfold nodes_off_cond in Hc.
    apply andb_true_iff in Hc as [Hlen%Z.gtb_lt _].
    destruct (nodes_off_body_run j v Hlen) as (sn & _ & ->).
    destruct (stopped (eventer v)); [by left | right].
    eexists _, _. split; [| split; [reflexivity | done]]. done.
Qed.

Lemma conns_on_loop_posts (d : Delta) (fuel : nat) (i : Z) (w : state) :
  posts_within (λ e, is_ordered_conn_on e = true) (Z.to_nat (On d - i)) w
    (for_loop fuel (conns_on_cond d) conns_on_body i w).
Proof.
  apply for_loop_posts_within.
  - intros j v Hc. unfold conns_on_cond in Hc.
    apply andb_true_iff in Hc as [_ Hc]. by apply Z.ltb_lt.
  - intros j v Hc. unfold conns_on_cond in Hc.
    apply andb_true_iff in Hc as [Hlen%Z.gtb_lt _].
    destruct (conns_on_body_run j v) as (x & y & _ & _ & ->); [lia |].
    destruct (Z.geb_spec (bytes_Compare (ID x) (ID y)) 0) as [Hcmp | Hcmp].
    { left. split; [done |]. by intros i' w' [= <- _]. }
    destruct (stopped (eventer v)); [by left | right].
    eexists _, _. split; [| split; [reflexivity | done]].
    unfold is_ordered_conn_on. simpl. by apply Z.ltb_lt.
Qed.

Lemma conns_off_loop_posts (d : Delta) (fuel : nat) (i : Z) (w : state) :
  posts_within (λ e, is_conn_off e = true) (Z.to_nat (Off d - i)) w
    (for_loop fuel (conns_off_cond d) conns_off_body i w).
Proof.
  apply for_loop_posts_within.
  - intros j v Hc. unfold conns_off_cond in Hc.
    apply andb_true_iff in Hc as [_ Hc]. by apply Z.ltb_lt.
  - intros j v Hc. unfold conns_off_cond in Hc.
    apply andb_true_iff in Hc as [Hlen%Z.gtb_lt _].
    destruct (conns_off_body_run j v Hlen) as (sc & _ & ->).
    destruct (stopped (eventer v)); [by left | right].
    eexists _, _. split; [| split; [reflexivity | done]]. done.
Qed.

(** What two steps in a row post is what the first posts, then what the
    second posts. *)
Lemma bind_posts {A B} (S1 S2 : list Entry → Prop) (c : M A) (k : A → M B) w :
  S2 [] →
  (∃ e1, posted (eventer (world (c w))) = posted (eventer w) ++ e1 ∧ S1 e1) →
  (∀ a w', ∃ e2, posted (eventer (world (k a w'))) = posted (eventer w') ++ e2
                 ∧ S2 e2) →
  ∃ e1 e2, posted (eventer (world (bind c k w))) = posted (eventer w) ++ e1 ++ e2
           ∧ S1 e1 ∧ S2 e2.
Proof.
  intros Hnil (e1 & H1 & HS1) Hk. unfold bind.
  destruct (c w) as [a w' | msg w' | w']; simpl in *.
  - destruct (Hk a w') as (e2 & H2 & HS2). exists e1, e2.
    by rewrite H2, H1, <- app_assoc.
  - exists e1, []. by rewrite app_nil_r.
  - exists e1, []. by rewrite app_nil_r.
Qed.

(** X15: A tick posts its events in four runs, in this order: Node/On events,
    Node/Off events, ordered Conn/On events, Conn/Off events; after tick 0
    each run has at most one event, so a tick posts at most four. *)
Theorem later_tick_posts_at_most_four (fuel : nat) (n : Z) (w : state) :
  n ≠ 0 →
  ∃ a b c d,
    posted (eventer (world (tick fuel n w))) = posted (eventer w) ++ a ++ b ++ c ++ d
    ∧ Forall (λ e, is_node_on e = true) a ∧ (length a ≤ 1)%nat
    ∧ Forall (λ e, is_node_off e = true) b ∧ (length b ≤ 1)%nat
    ∧ Forall (λ e, is_ordered_conn_on e = true) c ∧ (length c ≤ 1)%nat
    ∧ Forall (λ e, is_conn_off e = true) d ∧ (length d ≤ 1)%nat.
Proof.
  intros Hn. unfold tick.
  destruct (deltas_later n w Hn) as (d0 & d1 & w' & Hds & He & Ha & Hb & Hc & Hd).
  unfold bind at 1. rewrite Hds. simpl. unfold bind at 1. simpl.
  unfold bind at 1. simpl. rewrite <- He.
  destruct (bind_posts
              (λ ev, ∃ a b, ev = a ++ b
                 ∧ Forall (λ e, is_node_on e = true) a ∧ (length a ≤ 1)%nat
                 ∧ Forall (λ e, is_node_off e = true) b ∧ (length b ≤ 1)%nat)
              (λ ev, ∃ c d, ev = c ++ d
                 ∧ Forall (λ e, is_ordered_conn_on e = true) c ∧ (length c ≤ 1)%nat
                 ∧ Forall (λ e, is_conn_off e = true) d ∧ (length d ≤ 1)%nat)
              (node_phase d0) (λ _, conn_phase fuel d1) w')
    as (e1 & e2 & Hp & (a & b & -> & Ha1 & Ha2 & Hb1 & Hb2)
        & (c & d & -> & Hc1 & Hc2 & Hd1 & Hd2)).
  - exists [], []. repeat split; try done; simpl; lia.
  - unfold node_phase.
    destruct (bind_posts
                (λ ev, Forall (λ e, is_node_on e = true) ev ∧ (length ev ≤ 1)%nat)
                (λ ev, Forall (λ e, is_node_off e = true) ev ∧ (length ev ≤ 1)%nat)
                (for_loop (Z.to_nat (On d0)) (nodes_on_cond d0) nodes_on_body 0)
                (λ _, for_loop (Z.to_nat (Off d0)) (nodes_off_cond d0)
                        nodes_off_body 0) w')
      as (a & b & Hp & [Ha1 Ha2] & [Hb1 Hb2]).
    + split; [done | simpl; lia].
    + destruct (nodes_on_loop_posts d0 (Z.to_nat (On d0)) 0 w')
        as (ev & Hev & Hall & Hlen).
      exists ev. split; [done |]. split; [done | lia].
    + intros _ v. destruct (nodes_off_loop_posts d0 (Z.to_nat (Off d0)) 0 v)
        as (ev & Hev & Hall & Hlen).
      exists ev. split; [done |]. split; [done | lia].
    + exists (a ++ b). split; [done |]. by exists a, b.
  - intros _ v. unfold conn_phase.
    destruct (bind_posts
                (λ ev, Forall (λ e, is_ordered_conn_on e = true) ev
                       ∧ (length ev ≤ 1)%nat)
                (λ ev, Forall (λ e, is_conn_off e = true) ev ∧ (length ev ≤ 1)%nat)
                (for_loop fuel (conns_on_cond d1) conns_on_body 0)
                (λ _, for_loop (Z.to_nat (Off d1)) (conns_off_cond d1)
                        conns_off_body 0) v)
      as (c & d & Hp & [Hc1 Hc2] & [Hd1 Hd2]).
    + split; [done | simpl; lia].
    + destruct (conns_on_loop_posts d1 fuel 0 v) as (ev & Hev & Hall & Hlen).
      exists ev. split; [done |]. split; [done | lia].
    + intros _ v'. destruct (conns_off_loop_posts d1 (Z.to_nat (Off d1)) 0 v')
        as (ev & Hev & Hall & Hlen).
      exists ev. split; [done |]. split; [done | lia].
    + exists (c ++ d). split; [done |]. by exists c, d.
  - exists a, b, c, d. split; [by rewrite Hp, <- !app_assoc |]. done.
Qed.

Lemma later_tick_posts_at_most_four_witness :
  ∃ a b c d,
    posted (eventer (world (tick 40 19
      (world (MockNetwork 40 Samples.hundred_ids Samples.counting
                Samples.running 19)))))
    = posted (eventer (world (MockNetwork 40 Samples.hundred_ids Samples.counting
                                Samples.running 19)))
      ++ a ++ b ++ c ++ d
    ∧ Forall (λ e, is_node_on e = true) a ∧ (length a ≤ 1)%nat
    ∧ Forall (λ e, is_node_off e = true) b ∧ (length b ≤ 1)%nat
    ∧ Forall (λ e, is_ordered_conn_on e = true) c ∧ (length c ≤ 1)%nat
    ∧ Forall (λ e, is_conn_off e = true) d ∧ (length d ≤ 1)%nat.
Proof.
  apply (later_tick_posts_at_most_four 40 19). discriminate.
Defined.

(** *** A driver that cannot post, a driver with nothing to post *)

(** X16: When the eventer rejects posts the driver posts nothing and moves no
    node: the first post it attempts panics.  With a node in the pool that
    is the first Node/On of tick 0. *)
Theorem rejected_post_stops_the_driver (ids : list NodeID) (r : Rand)
    (m : TypeMux) (fuel k : nat) :
  stopped m = true →
  eventer (world (MockNetwork fuel ids r m k)) = m
  ∧ onNodes (world (MockNetwork fuel ids r m k)) = []
  ∧ offNodes (world (MockNetwork fuel ids r m k)) = ids
  ∧ onConns (world (MockNetwork fuel ids r m k)) = []
  ∧ (ids ≠ [] → k ≠ 0%nat → is_panicked (MockNetwork fuel ids r m k) = true).
Proof.
  intros Hstop.
  pose (I := λ w, eventer w = m ∧ onNodes w = [] ∧ offNodes w = ids
                  ∧ onConns w = []).
  assert (I (world (MockNetwork fuel ids r m k))) as (H1 & H2 & H3 & H4).
  { unfold MockNetwork. apply (ticks_invariant I fuel); [| done].
    apply (tick_invariant I).
    - unfold I. by intros w w' -> -> -> ->.
    - intros d i w Hcond (He & Hon & Hoff & Hc). unfold nodes_on_cond in Hcond.
      apply andb_true_iff in Hcond as [Hlen%Z.gtb_lt _].
      destruct (nodes_on_body_run i w Hlen) as (id & _ & ->).
      rewrite He, Hstop. simpl. by rewrite <- He.
    - intros d i w Hcond (He & Hon & Hoff & Hc). unfold nodes_off_cond in Hcond.
      by rewrite Hon in Hcond.
    - intros d i w Hcond (He & Hon & Hoff & Hc). unfold conns_on_cond in Hcond.
      by rewrite Hon in Hcond.
    - intros d i w Hcond (He & Hon & Hoff & Hc). unfold conns_off_cond in Hcond.
      by rewrite Hc in Hcond. }
  repeat split; try done.
  intros Hids Hk. destruct k as [| k]; [done |].
  unfold MockNetwork. simpl. unfold bind at 1. rewrite tick_0.
  unfold bind at 1. unfold node_phase. unfold bind at 1. simpl On.
  change (Z.to_nat 10) with 10%nat. simpl for_loop.
  assert (nodes_on_cond (mkDelta 10 0) 0 (start ids r m) = true) as ->.
  { unfold nodes_on_cond. simpl. destruct ids; [done |]. by unfold len. }
  destruct (nodes_on_body_run 0 (start ids r m)) as (id & _ & ->).
  { destruct ids; [done |]. unfold len. simpl. lia. }
  simpl. by rewrite Hstop.
Qed.

Lemma rejected_post_stops_the_driver_witness :
  eventer (world (MockNetwork 5 Samples.hundred_ids Samples.counting
                    (mkMux true []) 3)) = mkMux true []
  ∧ onNodes (world (MockNetwork 5 Samples.hundred_ids Samples.counting
                      (mkMux true []) 3)) = []
  ∧ offNodes (world (MockNetwork 5 Samples.hundred_ids Samples.counting
                       (mkMux true []) 3)) = Samples.hundred_ids
  ∧ onConns (world (MockNetwork 5 Samples.hundred_ids Samples.counting
                      (mkMux true []) 3)) = []
  ∧ is_panicked (MockNetwork 5 Samples.hundred_ids Samples.counting
                   (mkMux true []) 3) = true.
Proof.
  destruct (rejected_post_stops_the_driver Samples.hundred_ids Samples.counting
              (mkMux true []) 5 3 eq_refl) as (H1 & H2 & H3 & H4 & H5).
  split; [exact H1 |]. split; [exact H2 |]. split; [exact H3 |].
  split; [exact H4 |]. apply H5; discriminate.
Defined.

Lemma tick_without_nodes (fuel : nat) (n : Z) (w : state) :
  onNodes w = [] → offNodes w = [] → onConns w = [] →
  ∃ w', tick fuel n w = Done tt w'
        ∧ eventer w' = eventer w
        ∧ onNodes w' = [] ∧ offNodes w' = [] ∧ onConns w' = [].
Proof.
  intros Hon Hoff Hc. unfold tick.
  destruct (deltas_view n w) as (d0 & d1 & w' & Hds & He' & Hon' & Hoff' & Hc').
  unfold bind at 1. rewrite Hds. simpl. unfold bind at 1. simpl.
  unfold bind at 1. simpl. unfold node_phase, conn_phase, bind.
  rewrite Hon in Hon'. rewrite Hoff in Hoff'. rewrite Hc in Hc'.
  rewrite for_loop_exit by (unfold nodes_on_cond; by rewrite Hoff').
  rewrite for_loop_exit by (unfold nodes_off_cond; by rewrite Hon').
  rewrite for_loop_exit by (unfold conns_on_cond; by rewrite Hon').
  rewrite for_loop_exit by (unfold conns_off_cond; by rewrite Hc').
  by exists w'.
Qed.

(** X17: With no identity to start from, every tick ends, whatever the fuel and
    the draws, and the driver never posts anything. *)
Theorem empty_pool_posts_nothing (r : Rand) (m : TypeMux) (fuel k : nat) :
  ∃ w, MockNetwork fuel [] r m k = Done tt w
       ∧ eventer w = m
       ∧ onNodes w = [] ∧ offNodes w = [] ∧ onConns w = [].
Proof.
  unfold MockNetwork.
  assert (∀ n w, onNodes w = [] → offNodes w = [] → onConns w = [] →
                 ∃ w', ticks fuel k n w = Done tt w' ∧ eventer w' = eventer w
                       ∧ onNodes w' = [] ∧ offNodes w' = [] ∧ onConns w' = [])
    as Hgen.
  { induction k as [| k IH]; intros n w Hon Hoff Hc; simpl.
    - by exists w.
    - destruct (tick_without_nodes fuel n w Hon Hoff Hc)
        as (w1 & Ht & He1 & Hon1 & Hoff1 & Hc1).
      unfold bind. rewrite Ht.
      destruct (IH (n + 1) w1 Hon1 Hoff1 Hc1) as (w2 & -> & He2 & H).
      exists w2. split; [done |]. split; [congruence | done]. }
  by apply Hgen.
Qed.

End DriverLaws.

(** * The scripted journal test *)

Module MockJournalFacts.
Import MockJournal.

Lemma toggle_parity (q : Z) :
  (if String.eqb (if Z.odd q then "On" else "Off") "On" then "Off" else "On")
  = (if Z.odd (q + 1) then "On" else "Off")%string.
Proof.
  replace (q + 1) with (Z.succ q) by lia. rewrite Z.odd_succ, <- Z.negb_odd.
  by destruct (Z.odd q).
Qed.

(** From tick [n ≥ 1] on, with the action the earlier toggles left. *)
Lemma ticks_later (id0 id1 : NodeID) (rest : list NodeID) (k : nat) : ∀ n,
  1 ≤ n →
  ticks (id0 :: id1 :: rest) k n (if Z.odd ((n - 1) / 3) then "On" else "Off")
  = Ok ((λ i, appended_at id0 id1 (n + Z.of_nat i)) <$> seq 0 k).
Proof.
  induction k as [| k IH]; intros n Hn; [done |].
  assert (appended_at id0 id1 (n + Z.of_nat 0)
          = if n `mod` 3 =? 0
            then [mkEntry "Conn" (if Z.odd (n / 3) then "On" else "Off")
                          (ObjConn (mkSimConn id0 id1))]
            else []) as Hhere.
  { unfold appended_at. replace (n + Z.of_nat 0) with n by lia.
    by destruct (Z.eqb_spec n 0); [lia |]. }
  assert ((λ i, appended_at id0 id1 (n + Z.of_nat i)) <$> seq 1 k
          = (λ i, appended_at id0 id1 (n + 1 + Z.of_nat i)) <$> seq 0 k) as Hrest.
  { rewrite <- fmap_S_seq, <- list_fmap_compose. apply list_fmap_ext.
    intros _ i _. simpl. f_equal. lia. }
  change (seq 0 (S k)) with (0%nat :: seq 1 k). rewrite fmap_cons, Hhere, Hrest.
  cbn [ticks]. unfold tick.
  destruct (Z.eqb_spec n 0) as [| _]; [lia |].
  change (at_index (id0 :: id1 :: rest) 0) with (Ok id0).
  change (at_index (id0 :: id1 :: rest) 1) with (Ok id1). cbn [rbind].
  rewrite Z.rem_mod_nonneg by lia.
  destruct (Z.eqb_spec (n `mod` 3) 0) as [H0 | Hne].
  - rewrite toggle_parity. cbn [rbind].
    replace ((n - 1) / 3 + 1) with ((n + 1 - 1) / 3)
      by (Z.div_mod_to_equations; lia).
    rewrite (IH (n + 1)) by lia. cbn [rbind].
    replace ((n + 1 - 1) / 3) with (n / 3) by (f_equal; lia). done.
  - cbn [rbind]. replace ((n - 1) / 3) with ((n + 1 - 1) / 3)
      by (Z.div_mod_to_equations; lia).
    rewrite (IH (n + 1)) by lia. done.
Qed.

(** X18: mockJournalTest, tick by tick: tick 0 appends Node/On for the first two
    identities; after that only every third tick appends anything, namely
    one Conn event from the first identity to the second, On at ticks 3, 9,
    15, ... and Off at ticks 6, 12, 18, ..., so the one connection is
    switched on and off in turn, starting with on. *)
Theorem mockJournalTest_toggles_one_connection (id0 id1 : NodeID)
    (rest : list NodeID) (k : nat) :
  mockJournalTest (id0 :: id1 :: rest) k
  = Ok ((λ i, appended_at id0 id1 (Z.of_nat i)) <$> seq 0 k).
Proof.
  destruct k as [| k]; [done |].
  unfold mockJournalTest. simpl ticks. unfold tick. simpl.
  change "Off"%string with (if Z.odd ((0 + 1 - 1) / 3) then "On" else "Off")%string.
  rewrite (ticks_later id0 id1 rest k (0 + 1)) by lia. simpl.
  do 2 f_equal. rewrite <- fmap_S_seq, <- list_fmap_compose.
  apply list_fmap_ext. intros _ i _. simpl. f_equal. lia.
Qed.

Example mockJournalTest_seven_ticks :
  mockJournalTest Samples.hundred_ids 7
  = Ok [[Samples.node_on 0; Samples.node_on 1]; []; [];
        [mkEntry "Conn" "On" (ObjConn (mkSimConn (Samples.id_of 0) (Samples.id_of 1)))];
        []; [];
        [mkEntry "Conn" "Off" (ObjConn (mkSimConn (Samples.id_of 0) (Samples.id_of 1)))]].
Proof. reflexivity. Qed.

End MockJournalFacts.

(** * The discovery test helper *)

Module FrameworkFacts.
Import Framework.

(** X19: [contains(ns, key)] is true exactly when some node of [ns] has [key]
    as its ID; on an empty list it is false. *)
Theorem contains_is_membership {Node Pubkey : Type} (ID : Node → Pubkey)
    `{EqDecision Pubkey} (ns : list Node) (key : Pubkey) :
  contains Node Pubkey ID ns key = bool_decide (key ∈ ID <$> ns).
Proof.
  induction ns as [| n ns IH]; simpl.
  - done.
  - destruct (decide (ID n = key)) as [<- | Hne].
    + symmetry. apply bool_decide_eq_true_2. apply elem_of_cons. by left.
    + rewrite IH. apply bool_decide_ext. rewrite elem_of_cons.
      split; [by right | by intros [? | ?]].
Qed.

End FrameworkFacts.

(** * The RPC backend *)

Module RpcFacts.
Import Rpc.

Section Backend.

Context {Param Client : Type}.
Variable Send : request Param → Client → option error * Client.
Variable Recv : Client → option error * response * Client.

Lemma request_autoid method params (backend : rpcBackend Client) :
  autoid Client (request_ Param Client Send Recv method params backend).2
  = next_id Client backend.
Proof.
  unfold request_. destruct (Send _ _) as [[err |] c]; [done |].
  destruct (Recv c) as [[[err |] res] c']; [done |].
  by destruct (0 <? _).
Qed.

Lemma requests_ids calls : ∀ (backend : rpcBackend Client),
  Id Param <$> requests Param Client Send Recv calls backend
  = (λ i, (autoid Client backend + Z.of_nat i) `mod` uint32_modulus)
    <$> seq 1 (length calls).
Proof.
  induction calls as [| [method params] calls IH]; intros backend; [done |].
  simpl. f_equal. rewrite IH, request_autoid. unfold next_id.
  rewrite <- (fmap_S_seq 1), <- list_fmap_compose. apply list_fmap_ext.
  intros _ i _. simpl. rewrite Zplus_mod_idemp_l. f_equal. lia.
Qed.

(** X20: The requests of a new backend carry the ids 1, 2, 3, ... in call
    order, wrapping to 0 after 2^32 - 1, whether or not the calls before
    succeeded; each says "2.0", and none carries nil parameters (nil is
    sent as the empty list). *)
Theorem request_ids_count_up (c : Client)
    (calls : list (string * option (list Param))) :
  Id Param <$> requests Param Client Send Recv calls (NewRPCBackend Client c)
  = (λ i, Z.of_nat i `mod` uint32_modulus) <$> seq 1 (length calls)
  ∧ Forall (λ r, JsonRpc Param r = "2.0"%string ∧ Params Param r ≠ None)
           (requests Param Client Send Recv calls (NewRPCBackend Client c)).
Proof.
  split; [by rewrite requests_ids |].
  generalize (NewRPCBackend Client c).
  induction calls as [| [method params] calls IH]; intros backend; simpl.
  - constructor.
  - constructor; [| apply IH]. split; [done |]. by destruct params.
Qed.

(** X21: [request] never returns both a result and an error; and a reply
    whose error field is not empty is an error that quotes it, whatever
    result the reply carries. *)
Theorem request_error_excludes_result method params
    (backend : rpcBackend Client) :
  ((request_ Param Client Send Recv method params backend).1.2 ≠ None →
   (request_ Param Client Send Recv method params backend).1.1 = None)
  ∧ ∀ c res c',
      Send (assemble Param Client method params backend) (client Client backend)
      = (None, c) →
      Recv c = (None, res, c') →
      Error res ≠ ""%string →
      (request_ Param Client Send Recv method params backend).1
      = (None, Some ("remote error: " ++ Error res)%string).
Proof.
  split.
  - unfold request_. destruct (Send _ _) as [[err |] c]; [done |].
    destruct (Recv c) as [[[err |] res] c']; [done |].
    by destruct (0 <? _).
  - intros c res c' HS HR Herr. unfold request_. rewrite HS, HR.
    destruct (Error res) as [| a e]; [done |]. done.
Qed.

End Backend.

Lemma request_error_excludes_result_witness :
(Rpc.request_ string (list response) Samples.canned_send Samples.canned_recv
   "eth_gasPrice" None
   (NewRPCBackend _ [mkResponse "2.0" 1 "{code: -32000}" (Some "0x1")])).1
= (None, Some "remote error: {code: -32000}"%string).
Proof.
destruct (request_error_excludes_result Samples.canned_send Samples.canned_recv
            "eth_gasPrice" None
            (NewRPCBackend _ [mkResponse "2.0" 1 "{code: -32000}" (Some "0x1")]))
  as [_ Hremote].
apply (Hremote [mkResponse "2.0" 1 "{code: -32000}" (Some "0x1")]
         (mkResponse "2.0" 1 "{code: -32000}" (Some "0x1")) []);
  [reflexivity | reflexivity | discriminate].
Defined.

Example three_requests :
Id string <$> requests string (list response) Samples.canned_send
                Samples.canned_recv
                [("eth_gasPrice", None); ("eth_call", Some ["{}"; "pending"]);
                 ("eth_gasPrice", None)]
                (NewRPCBackend _ [mkResponse "2.0" 1 "" (Some "0x1")])
= [1; 2; 3].
Proof. reflexivity. Qed.

End RpcFacts.
